(** * resacf: residence-time autocorrelation from a selection time series

    A shallow embedding of [resacf/resacf.py].  Arrays are lists; numpy
    indices and int64 entries are [Z]; a Python exception is the left
    summand of [res].  Positions inside an array and their differences are
    bounded by the array length, so they are written over [Z] without
    wrap-around; the two places where a value from outside meets int64
    arithmetic ([span[0] + delay] and [acf[:n] += ...]) carry the
    wrap-around explicitly.  float64 values are Rocq's binary64 primitive
    floats.  [np.float] and [np.bool] are read as the aliases of [float]
    and [bool] they were in the numpy the module was written for. *)

From Stdlib Require Import ZArith List Bool Lia Permutation Sorted Floats Uint63.
Import ListNotations.
Local Open Scope Z_scope.

(** ** Exceptions *)

Inductive exn : Type :=
| AssertionError
| IndexError
| ValueError.

Definition res (A : Type) : Type := (exn + A)%type.

Definition ret {A : Type} (a : A) : res A := inr a.
Definition raise {A : Type} (e : exn) : res A := inl e.
Definition bind {A B : Type} (m : res A) (k : A -> res B) : res B :=
  match m with
  | inl e => inl e
  | inr a => k a
  end.

Notation "x <- m ;; k" := (bind m (fun x => k))
  (at level 61, m at next level, right associativity).

(** ** numpy primitives used by the module *)

(** [len(a)] as a Python integer. *)
Definition len {A : Type} (a : list A) : Z := Z.of_nat (length a).

(** [a[i]] for an integer [i]: a negative index counts from the end, and an
    index outside the array raises [IndexError]. *)
Definition getitem {A : Type} (a : list A) (i : Z) : res A :=
  let j := if i <? 0 then i + len a else i in
  if (j <? 0) || (len a <=? j) then raise IndexError
  else match nth_error a (Z.to_nat j) with
       | Some x => ret x
       | None => raise IndexError
       end.

(** [np.diff(a, n=1)] on a boolean array: [a[i+1] != a[i]]. *)
Fixpoint np_diff_bool (a : list bool) : list bool :=
  match a with
  | x :: (y :: _) as r => xorb y x :: np_diff_bool r
  | _ => []
  end.

(** [np.diff(a)] on an integer array: [a[i+1] - a[i]]. *)
Fixpoint np_diff (a : list Z) : list Z :=
  match a with
  | x :: (y :: _) as r => (y - x) :: np_diff r
  | _ => []
  end.

(** [np.argwhere(a).flatten()]: the positions of the true entries, in
    increasing order; [argwhere_from k] numbers the first entry [k]. *)
Fixpoint argwhere_from (k : Z) (a : list bool) : list Z :=
  match a with
  | [] => []
  | b :: r => (if b then [k] else []) ++ argwhere_from (k + 1) r
  end.

Definition argwhere (a : list bool) : list Z := argwhere_from 0 a.

(** [np.argwhere(np.diff(bool_array, n=1)).flatten() + 1], the expression
    all three span functions start with: the positions [j] at which
    [bool_array[j]] differs from [bool_array[j-1]]. *)
Definition jumps_of (bool_array : list bool) : list Z :=
  map (fun i => i + 1) (argwhere (np_diff_bool bool_array)).

(** [a[0::2]]. *)
Fixpoint step2 {A : Type} (a : list A) : list A :=
  match a with
  | [] => []
  | x :: r => x :: match r with
                   | [] => []
                   | _ :: r' => step2 r'
                   end
  end.

(** [a[offset::2]] for [offset] 0 or 1. *)
Definition slice_from_step2 {A : Type} (a : list A) (offset : nat) : list A :=
  step2 (skipn offset a).

(** [int(b)]. *)
Definition int_of_bool (b : bool) : nat := if b then 1%nat else 0%nat.

(** ** get_lengths_of_True_spans *)

(** The guard [len(indices >= 2)] is the length of the elementwise
    comparison, taken as a truth value. *)
Definition get_lengths_of_True_spans (bool_array : list bool)
    (outer_spans : bool) : res (list Z) :=
  if negb (0 <? len bool_array) then raise AssertionError
  else
    let indices := jumps_of bool_array in
    let indices :=
      if outer_spans then [0] ++ indices ++ [len bool_array] else indices in
    if negb (len (map (fun i => 2 <=? i) indices) =? 0) then
      i0 <- getitem indices 0 ;;
      b <- getitem bool_array i0 ;;
      let offset := int_of_bool (negb b) in
      ret (slice_from_step2 (np_diff indices) offset)
    else ret [].

(** ** Slices *)

(** A slice bound as Python normalises it for an array of length [n]: a
    negative bound counts from the end, and the result is clamped to
    [0..n]. *)
Definition slice_bound (n i : Z) : Z :=
  if i <? 0 then Z.max (i + n) 0 else Z.min i n.

(** [a[lo:hi] = True] on the entries numbered from [k]. *)
Fixpoint set_True_from (k lo hi : Z) (a : list bool) : list bool :=
  match a with
  | [] => []
  | b :: r =>
      (if (lo <=? k) && (k <? hi) then true else b)
        :: set_True_from (k + 1) lo hi r
  end.

(** [bool_array[lo:hi] = True]. *)
Definition setslice_True (bool_array : list bool) (lo hi : Z) : list bool :=
  set_True_from 0 (slice_bound (len bool_array) lo)
    (slice_bound (len bool_array) hi) bool_array.

(** [a[idx]] for an integer index array [idx]. *)
Fixpoint take {A : Type} (a : list A) (idx : list Z) : res (list A) :=
  match idx with
  | [] => ret []
  | i :: r => x <- getitem a i ;; xs <- take a r ;; ret (x :: xs)
  end.

(** ** remove_small_False_spans *)

(** The body of the [for] loop, over the rows of
    [np.vstack((lefts, rights)).T]; the array is updated in place, so each
    test reads the array as the earlier iterations left it. *)
Fixpoint remove_loop (spans : list (Z * Z)) (bool_array : list bool)
    : res (list bool) :=
  match spans with
  | [] => ret bool_array
  | (s0, s1) :: rest =>
      b <- getitem bool_array s0 ;;
      remove_loop rest
        (if negb b then setslice_True bool_array s0 s1 else bool_array)
  end.

(** The function returns nothing and mutates [bool_array]; the embedding
    returns the array as the call leaves it. *)
Definition remove_small_False_spans (bool_array : list bool)
    (max_False_span : Z) : res (list bool) :=
  let jumps := jumps_of bool_array in
  let small_spans :=
    argwhere (map (fun d => d <=? max_False_span) (np_diff jumps)) in
  lefts <- take jumps small_spans ;;
  rights <- take jumps (map (fun i => i + 1) small_spans) ;;
  remove_loop (combine lefts rights) bool_array.

(** ** delay_true_spans *)

(** int64 wrap-around. *)
Definition wrap64 (x : Z) : Z := (x + 2 ^ 63) mod 2 ^ 64 - 2 ^ 63.

Definition add64 (x y : Z) : Z := wrap64 (x + y).
Definition sub64 (x y : Z) : Z := wrap64 (x - y).

(** [span[0]] is an int64 scalar, so [span[0] + delay] wraps; [delay] is
    taken to be an integer that int64 can hold. *)
Fixpoint delay_loop (len_array delay : Z) (spans : list (Z * Z))
    (bool_array : list bool) : res (list bool) :=
  match spans with
  | [] => ret bool_array
  | (s0, _) :: rest =>
      b <- getitem bool_array s0 ;;
      delay_loop len_array delay rest
        (if negb b
         then setslice_True bool_array s0 (Z.min (add64 s0 delay) len_array)
         else bool_array)
  end.

Definition delay_true_spans (bool_array : list bool) (delay : Z)
    : res (list bool) :=
  let len_array := len bool_array in
  let jumps := jumps_of bool_array in
  let jumps := jumps ++ [len_array] in
  (* jumps[:-1] and jumps[1:] *)
  delay_loop len_array delay (combine (removelast jumps) (tl jumps))
    bool_array.

(** ** add_acf_from_span_lengths *)

(** [a[:hi]] and the rest of [a]. *)
Definition slice_to {A : Type} (a : list A) (hi : Z) : list A :=
  firstn (Z.to_nat (slice_bound (len a) hi)) a.

Definition slice_rest {A : Type} (a : list A) (hi : Z) : list A :=
  skipn (Z.to_nat (slice_bound (len a) hi)) a.

(** Elementwise int64 addition of two arrays of one length. *)
Fixpoint add64_arrays (a b : list Z) : list Z :=
  match a, b with
  | x :: a', y :: b' => add64 x y :: add64_arrays a' b'
  | _, _ => []
  end.

(** [acf[:hi] += rhs]: the shapes agree, or [rhs] has one entry that is
    broadcast; any other pair of shapes raises [ValueError]. *)
Definition iadd_slice_to (acf : list Z) (hi : Z) (rhs : list Z)
    : res (list Z) :=
  let target := slice_to acf hi in
  if len rhs =? len target then
    ret (add64_arrays target rhs ++ slice_rest acf hi)
  else
    match rhs with
    | [y] => ret (map (fun x => add64 x y) target ++ slice_rest acf hi)
    | _ => raise ValueError
    end.

(** The function returns nothing and mutates [acf]; the embedding returns
    the buffer as the call leaves it. *)
Fixpoint add_acf_from_span_lengths (t acf span_lengths : list Z)
    : res (list Z) :=
  match span_lengths with
  | [] => ret acf
  | span_len :: rest =>
      acf' <- iadd_slice_to acf span_len
                (map (fun ti => sub64 span_len ti) (slice_to t span_len)) ;;
      add_acf_from_span_lengths t acf' rest
  end.

(** ** calc_acf_from_select_data *)

(** [astype(np.float)] on an int64 value (round to nearest even). *)
Definition float_of_int64 (x : Z) : float :=
  if x =? - 2 ^ 63 then (-9223372036854775808)%float
  else if x <? 0 then PrimFloat.opp (PrimFloat.of_uint63 (Uint63.of_Z (- x)))
  else PrimFloat.of_uint63 (Uint63.of_Z x).

(** [np.sum(span_lengths)]. *)
Definition np_sum (a : list Z) : Z := fold_right Z.add 0 a.

(** The table after [del df[0]; del df[1]]: one row per frame, holding the
    identifiers selected in that frame.  [(df == atom).any(axis=1)]. *)
Definition selection_of (table : list (list Z)) (atom : Z) : list bool :=
  map (fun row => existsb (Z.eqb atom) row) table.

(** [a[start::step]]; a zero step raises [ValueError]. *)
Fixpoint stride_from {A : Type} (skip step : nat) (a : list A) : list A :=
  match a with
  | [] => []
  | x :: r =>
      match skip with
      | O => x :: stride_from (step - 1) step r
      | S k => stride_from k step r
      end
  end.

Definition slice_from_step {A : Type} (a : list A) (start step : nat)
    : res (list A) :=
  if Nat.eqb step 0 then raise ValueError else ret (stride_from start step a).

(** The loop over the atoms of one block.  [norm] starts as the Python
    integer 0 and becomes an int64 or float64 scalar as sums are added; all
    three hold the sum exactly below 2^53, and it is written as an
    integer. *)
Fixpoint atoms_loop (t : list Z) (table : list (list Z))
    (max_False_span : Z) (outer_spans delay : bool) (atoms : list Z)
    (acf : list Z) (norm : Z) : res (list Z * Z) :=
  match atoms with
  | [] => ret (acf, norm)
  | atom :: rest =>
      let selected := selection_of table atom in
      selected <-
        (if 0 <? max_False_span then
           if delay then delay_true_spans selected max_False_span
           else remove_small_False_spans selected max_False_span
         else ret selected) ;;
      span_lengths <- get_lengths_of_True_spans selected outer_spans ;;
      let norm := norm + np_sum span_lengths in
      acf <- add_acf_from_span_lengths t acf span_lengths ;;
      atoms_loop t table max_False_span outer_spans delay rest acf norm
  end.

(** [acf.astype(np.float) / norm]: numpy's elementwise division, which
    raises nothing. *)
Definition normalize (acf : list Z) (norm : Z) : list float :=
  map (fun x => PrimFloat.div (float_of_int64 x) (float_of_int64 norm)) acf.

(** One iteration of [for block in range(n_blocks)]; [atoms] is the listing
    [pd.unique(df.values.ravel('K'))]. *)
Definition block_acf (t : list Z) (table : list (list Z))
    (max_False_span : Z) (outer_spans delay : bool) (atoms : list Z)
    (n_blocks block : nat) : res (list float) :=
  block_atoms <- slice_from_step atoms block n_blocks ;;
  r <- atoms_loop t table max_False_span outer_spans delay block_atoms
         (map (fun _ => 0) t) 0 ;;
  ret (normalize (fst r) (snd r)).

Fixpoint blocks_loop (t : list Z) (table : list (list Z))
    (max_False_span : Z) (outer_spans delay : bool) (atoms : list Z)
    (n_blocks : nat) (blocks : list nat) : res (list (list float)) :=
  match blocks with
  | [] => ret []
  | block :: rest =>
      row <- block_acf t table max_False_span outer_spans delay atoms
               n_blocks block ;;
      rows <- blocks_loop t table max_False_span outer_spans delay atoms
                n_blocks rest ;;
      ret (row :: rows)
  end.

(** Elementwise float operations on two rows of one length. *)
Fixpoint zip_float (f : float -> float -> float) (a b : list float)
    : list float :=
  match a, b with
  | x :: a', y :: b' => f x y :: zip_float f a' b'
  | _, _ => []
  end.

(** [np.add.reduce(rows, axis=0)]: the rows are added one after the other
    onto the identity. *)
Definition sum_axis0 (ncols : nat) (rows : list (list float)) : list float :=
  fold_left (zip_float PrimFloat.add) rows (repeat 0%float ncols).

(** [rows.mean(axis=0)]. *)
Definition np_mean_axis0 (ncols : nat) (rows : list (list float))
    : list float :=
  map (fun s => PrimFloat.div s (float_of_int64 (len rows)))
    (sum_axis0 ncols rows).

(** [rows.std(axis=0, ddof=ddof)], as numpy computes it: the mean of
    the rows, the squared deviations from it, their sum divided by
    [max(n - ddof, 0)], and the square root. *)
Definition np_std_axis0 (ddof : Z) (ncols : nat) (rows : list (list float))
    : list float :=
  let arrmean := np_mean_axis0 ncols rows in
  let x := map (fun row => zip_float PrimFloat.sub row arrmean) rows in
  let x := map (map (fun d => PrimFloat.mul d d)) x in
  let rcount := Z.max (len rows - ddof) 0 in
  map (fun s => PrimFloat.sqrt (PrimFloat.div s (float_of_int64 rcount)))
    (sum_axis0 ncols x).

(** The computation after the file is read: [table] is the truncated
    selection table, [atoms] the deduplicated identifier listing, [dt] the
    frame spacing and [max_False_span] the gap threshold in frames.
    [std] is called without [ddof], which defaults to 0. *)
Definition calc_acf_from_select_data (table : list (list Z))
    (atoms : list Z) (dt : float) (max_False_span : Z) (n_blocks : nat)
    (outer_spans delay : bool) : res (list float * list float * list float) :=
  let t := map Z.of_nat (seq 0 (length table)) in
  acf_blocks <- blocks_loop t table max_False_span outer_spans delay atoms
                  n_blocks (seq 0 n_blocks) ;;
  let acf_mean := np_mean_axis0 (length t) acf_blocks in
  let acf_std := np_std_axis0 0 (length t) acf_blocks in
  let t := map (fun i => PrimFloat.mul (float_of_int64 i) dt) t in
  ret (t, acf_mean, acf_std).

(** ** Vocabulary of the statements *)

(** The entry at position [i], for [0 <= i < len a]. *)
Definition zth (a : list bool) (i : Z) : bool := nth (Z.to_nat i) a false.

(** The number of selected frames. *)
Definition count_True (a : list bool) : Z := len (filter (fun b => b) a).

(** [s .. e-1] is a maximal run of False frames of [a]. *)
Definition False_run (a : list bool) (s e : Z) : Prop :=
  0 <= s < e /\ e <= len a /\
  (forall k, s <= k < e -> zth a k = false) /\
  (s = 0 \/ zth a (s - 1) = true) /\
  (e = len a \/ zth a e = true).

(** A False-run begins at [s], directly after a True frame. *)
Definition False_run_start (a : list bool) (s : Z) : Prop :=
  0 < s < len a /\ zth a (s - 1) = true /\ zth a s = false.

(** The delay policy as specified: every False-run has its first
    [min(d, frames left)] frames set. *)
Definition delays_every_False_run (a : list bool) (d : Z) : Prop :=
  exists r, delay_true_spans a d = ret r /\
    forall s e, False_run a s e ->
      forall i, s <= i < Z.min (s + d) (len a) -> zth r i = true.

(** Frame [i] lies in a False-run of length at most [max_gap] that has a
    True frame on either side. *)
Definition in_small_gap (a : list bool) (max_gap i : Z) : Prop :=
  exists s e, False_run a s e /\ 0 < s /\ e < len a /\
              e - s <= max_gap /\ s <= i < e.

(** The index array [get_lengths_of_True_spans] reads the spans from. *)
Definition span_indices (bool_array : list bool) (outer_spans : bool)
    : list Z :=
  if outer_spans then [0] ++ jumps_of bool_array ++ [len bool_array]
  else jumps_of bool_array.

(** The common shape of the two gap loops: a span whose first frame is
    False when its turn comes has the slice from its first frame up to
    [upto s0 s1] set to True. *)
Fixpoint gap_loop (upto : Z -> Z -> Z) (spans : list (Z * Z))
    (bool_array : list bool) : res (list bool) :=
  match spans with
  | [] => ret bool_array
  | (s0, s1) :: rest =>
      b <- getitem bool_array s0 ;;
      gap_loop upto rest
        (if negb b then setslice_True bool_array s0 (upto s0 s1)
         else bool_array)
  end.

(** The frames span [(s0, s1)] sets when it fires on an array of length
    [n]. *)
Definition window (upto : Z -> Z -> Z) (n : Z) (s : Z * Z) (i : Z) : Prop :=
  fst s <= i < slice_bound n (upto (fst s) (snd s)).

(** The entry of an integer array at position [i]. *)
Definition zth_int (a : list Z) (i : Z) : Z := nth (Z.to_nat i) a 0.

(** A value an int64 array can hold. *)
Definition is_int64 (x : Z) : Prop := - 2 ^ 63 <= x < 2 ^ 63.

(** What one span of length [L] adds at position [i] of the buffer. *)
Definition contribution (i L : Z) : Z := if i <? L then L - i else 0.

(** What a list of spans adds at position [i] in all. *)
Definition total_contribution (i : Z) (span_lengths : list Z) : Z :=
  np_sum (map (contribution i) span_lengths).

(** The time grid [0..F-1]. *)
Definition time_grid (F : nat) : list Z := map Z.of_nat (seq 0 F).

(** The maximal runs of a sequence in order, each with its value and its
    number of frames. *)
Fixpoint runs_of (a : list bool) : list (bool * Z) :=
  match a with
  | [] => []
  | x :: r =>
      match runs_of r with
      | [] => [(x, 1)]
      | (b, k) :: rest =>
          if Bool.eqb x b then (b, k + 1) :: rest
          else (x, 1) :: (b, k) :: rest
      end
  end.

(** The lengths of the True runs among [rs]. *)
Definition True_run_lengths (rs : list (bool * Z)) : list Z :=
  map snd (filter fst rs).

(** The values of [rs] alternate, starting with [b]. *)
Fixpoint alternating (b : bool) (rs : list (bool * Z)) : Prop :=
  match rs with
  | [] => True
  | (c, _) :: rest => c = b /\ alternating (negb b) rest
  end.

(** The span lengths one atom contributes: the body of the loop over the
    atoms up to the call of [get_lengths_of_True_spans]. *)
Definition atom_span_lengths (table : list (list Z)) (max_False_span : Z)
    (outer_spans delay : bool) (atom : Z) : res (list Z) :=
  selected <-
    (if 0 <? max_False_span then
       if delay
       then delay_true_spans (selection_of table atom) max_False_span
       else remove_small_False_spans (selection_of table atom) max_False_span
     else ret (selection_of table atom)) ;;
  get_lengths_of_True_spans selected outer_spans.

(** [False] and [True], as the tests write them. *)
Definition F := false.
Definition T := true.

(** * Properties *)

(** ** The sequences of [test/test_resacf.py] *)

Example test_get_lengths_1 :
  get_lengths_of_True_spans [F; T; F; T; F] false = ret [1; 1] /\
  get_lengths_of_True_spans [F; T; F; T; F] true = ret [1; 1].
Proof. split; reflexivity. Qed.

Example test_get_lengths_2 :
  get_lengths_of_True_spans [F; F; T; F; T; F; F] false = ret [1; 1] /\
  get_lengths_of_True_spans [F; F; T; F; T; F; F] true = ret [1; 1].
Proof. split; reflexivity. Qed.

Example test_get_lengths_3 :
  get_lengths_of_True_spans [T; T; T; F] false = ret [] /\
  get_lengths_of_True_spans [T; T; T; F] true = ret [3].
Proof. split; reflexivity. Qed.

Example test_get_lengths_4 :
  get_lengths_of_True_spans [F; T; T; T] false = ret [] /\
  get_lengths_of_True_spans [F; T; T; T] true = ret [3].
Proof. split; reflexivity. Qed.

Example test_get_lengths_5 :
  get_lengths_of_True_spans [T; T; T] false = ret [] /\
  get_lengths_of_True_spans [T; T; T] true = ret [3].
Proof. split; reflexivity. Qed.

(** ** The error monad *)

Lemma bind_ret_inv {A B : Type} (m : res A) (k : A -> res B) (b : B) :
  bind m k = ret b -> exists a, m = ret a /\ k a = ret b.
Proof.
  destruct m as [e | a]; simpl; intros H.
  - discriminate H.
  - exists a. split; [reflexivity | exact H].
Qed.

(** ** Indexing *)

Lemma len_nonneg {A : Type} (a : list A) : 0 <= len a.
Proof. unfold len. lia. Qed.

Lemma len_cons {A : Type} (x : A) (a : list A) : len (x :: a) = len a + 1.
Proof. unfold len. simpl length. lia. Qed.

Lemma len_app {A : Type} (a b : list A) : len (a ++ b) = len a + len b.
Proof. unfold len. rewrite length_app. lia. Qed.

Lemma len_map {A B : Type} (f : A -> B) (a : list A) : len (map f a) = len a.
Proof. unfold len. now rewrite length_map. Qed.

Lemma zth_cons_0 (x : bool) (a : list bool) : zth (x :: a) 0 = x.
Proof. reflexivity. Qed.

Lemma zth_cons_pos (x : bool) (a : list bool) (i : Z) :
  1 <= i -> zth (x :: a) i = zth a (i - 1).
Proof.
  intros Hi. unfold zth.
  replace (Z.to_nat i) with (S (Z.to_nat (i - 1))) by lia.
  reflexivity.
Qed.

Lemma zth_cons_succ (x : bool) (a : list bool) (i : Z) :
  0 <= i -> zth (x :: a) (i + 1) = zth a i.
Proof.
  intros Hi. rewrite zth_cons_pos by lia. f_equal. lia.
Qed.

Lemma getitem_in_range {A : Type} (a : list A) (i : Z) (d : A) :
  0 <= i < len a -> getitem a i = ret (nth (Z.to_nat i) a d).
Proof.
  intros Hi. unfold getitem.
  destruct (i <? 0) eqn:E; [lia |].
  destruct ((i <? 0) || (len a <=? i)) eqn:E2.
  - apply orb_true_iff in E2. destruct E2; lia.
  - destruct (nth_error a (Z.to_nat i)) eqn:E3.
    + now rewrite (nth_error_nth _ _ d E3).
    + apply nth_error_None in E3. unfold len in Hi. lia.
Qed.

Lemma getitem_bool (a : list bool) (i : Z) :
  0 <= i < len a -> getitem a i = ret (zth a i).
Proof. apply getitem_in_range. Qed.

(** Two boolean arrays of one length agree when they agree at every
    position. *)
Lemma zth_ext (a b : list bool) :
  length a = length b ->
  (forall i, 0 <= i < len a -> zth a i = zth b i) -> a = b.
Proof.
  revert b. induction a as [| x a IH]; intros [| y b] Hl H; try discriminate.
  - reflexivity.
  - f_equal.
    + specialize (H 0). rewrite len_cons in H.
      pose proof (len_nonneg a). apply H. lia.
    + apply IH; [now injection Hl |].
      intros i Hi. specialize (H (i + 1)).
      rewrite !zth_cons_succ in H by lia. apply H. rewrite len_cons. lia.
Qed.

(** ** Jumps *)

Lemma argwhere_from_succ (k : Z) (a : list bool) :
  argwhere_from (k + 1) a = map (fun i => i + 1) (argwhere_from k a).
Proof.
  revert k. induction a as [| b a IH]; intros k; simpl; [reflexivity |].
  rewrite map_app, IH. destruct b; reflexivity.
Qed.

Lemma jumps_of_cons (x y : bool) (r : list bool) :
  jumps_of (x :: y :: r) =
  (if xorb y x then [1] else []) ++ map (fun i => i + 1) (jumps_of (y :: r)).
Proof.
  unfold jumps_of, argwhere. simpl np_diff_bool. simpl argwhere_from.
  rewrite map_app. f_equal.
  - destruct (xorb y x); reflexivity.
  - now rewrite <- (argwhere_from_succ 0).
Qed.

Lemma jumps_of_single (x : bool) : jumps_of [x] = [].
Proof. reflexivity. Qed.

Lemma In_jumps_of (a : list bool) (j : Z) :
  In j (jumps_of a) <->
  1 <= j < len a /\ zth a j <> zth a (j - 1).
Proof.
  revert j. induction a as [| x a IH]; intros j.
  - simpl. unfold len. simpl. split; [tauto | lia].
  - destruct a as [| y r].
    + rewrite jumps_of_single. unfold len. simpl. split; [tauto | lia].
    + rewrite jumps_of_cons, in_app_iff, in_map_iff.
      rewrite (len_cons x). split.
      * intros [H | [i [<- H]]].
        -- destruct (xorb y x) eqn:E; [| contradiction].
           destruct H as [<- | []]. rewrite len_cons.
           pose proof (len_nonneg r). split; [lia |].
           change (zth (x :: y :: r) 1) with y.
           change (zth (x :: y :: r) (1 - 1)) with x.
           destruct x, y; discriminate.
        -- apply IH in H. destruct H as [Hr Hne]. split; [lia |].
           rewrite zth_cons_succ by lia.
           replace (i + 1 - 1) with (i - 1 + 1) by lia.
           rewrite zth_cons_succ by lia. exact Hne.
      * intros [Hr Hne]. destruct (Z.eq_dec j 1) as [-> | Hj].
        -- left.
           change (zth (x :: y :: r) 1) with y in Hne.
           change (zth (x :: y :: r) (1 - 1)) with x in Hne.
           destruct x, y; simpl; try tauto; congruence.
        -- right. exists (j - 1). split; [lia |]. apply IH.
           split; [lia |].
           rewrite (zth_cons_pos x _ j), (zth_cons_pos x _ (j - 1)) in Hne
             by lia.
           exact Hne.
Qed.

Lemma sorted_map_succ (l : list Z) :
  StronglySorted Z.lt l -> StronglySorted Z.lt (map (fun i => i + 1) l).
Proof.
  induction 1 as [| x l Hs IH Hx]; simpl; constructor; [exact IH |].
  rewrite Forall_forall in *. intros y Hy.
  apply in_map_iff in Hy. destruct Hy as [z [<- Hz]].
  specialize (Hx z Hz). lia.
Qed.

Lemma jumps_of_sorted (a : list bool) : StronglySorted Z.lt (jumps_of a).
Proof.
  induction a as [| x a IH]; [constructor |].
  destruct a as [| y r]; [constructor |].
  rewrite jumps_of_cons.
  pose proof (sorted_map_succ _ IH) as Hs.
  destruct (xorb y x); simpl; [| exact Hs].
  constructor; [exact Hs |].
  rewrite Forall_forall. intros z Hz.
  apply in_map_iff in Hz. destruct Hz as [i [<- Hi]].
  apply In_jumps_of in Hi. lia.
Qed.

Lemma jumps_of_bounds (a : list bool) (j : Z) :
  In j (jumps_of a) -> 1 <= j < len a.
Proof. intros H. now apply In_jumps_of in H. Qed.

(** The frame at the first jump differs from frame 0. *)
Lemma first_jump_flips (a : list bool) (j0 : Z) (js : list Z) :
  jumps_of a = j0 :: js -> zth a j0 = negb (zth a 0).
Proof.
  revert j0 js. induction a as [| x a IH]; intros j0 js H.
  - discriminate H.
  - destruct a as [| y r]; [discriminate H |].
    rewrite jumps_of_cons in H.
    destruct (xorb y x) eqn:E; simpl in H.
    + injection H as <- _.
      change (zth (x :: y :: r) 1) with y.
      change (zth (x :: y :: r) 0) with x.
      destruct x, y; try discriminate; reflexivity.
    + destruct (jumps_of (y :: r)) as [| i0 ir] eqn:Ej; [discriminate H |].
      simpl in H. injection H as <- _.
      pose proof (jumps_of_bounds (y :: r) i0) as Hb.
      rewrite Ej in Hb. specialize (Hb (or_introl eq_refl)).
      rewrite zth_cons_succ by lia.
      rewrite (IH i0 ir eq_refl).
      change (zth (y :: r) 0) with y.
      change (zth (x :: y :: r) 0) with x.
      destruct x, y; try discriminate; reflexivity.
Qed.

(** ** Span extraction *)

Lemma span_indices_head_in_range (a : list bool) (outer : bool)
    (i0 : Z) (ir : list Z) :
  a <> [] -> span_indices a outer = i0 :: ir -> 0 <= i0 < len a.
Proof.
  intros Ha H. unfold span_indices in H. destruct outer.
  - injection H as <- _. destruct a; [contradiction |].
    rewrite len_cons. pose proof (len_nonneg a). lia.
  - pose proof (jumps_of_bounds a i0) as Hb. rewrite H in Hb.
    specialize (Hb (or_introl eq_refl)). lia.
Qed.

(** On a non-empty array the function returns, and what it returns is read
    off the index array. *)
Lemma get_lengths_of_True_spans_eq (a : list bool) (outer : bool) :
  a <> [] ->
  get_lengths_of_True_spans a outer =
  ret match span_indices a outer with
      | [] => []
      | i0 :: _ =>
          slice_from_step2 (np_diff (span_indices a outer))
            (int_of_bool (negb (zth a i0)))
      end.
Proof.
  intros Ha. unfold get_lengths_of_True_spans.
  assert (Hlen : 0 < len a).
  { destruct a; [contradiction |]. rewrite len_cons.
    pose proof (len_nonneg a). lia. }
  destruct (0 <? len a) eqn:E; [| lia]. cbn [negb]. cbv zeta.
  replace (if outer then [0] ++ jumps_of a ++ [len a] else jumps_of a)
    with (span_indices a outer) by reflexivity.
  destruct (span_indices a outer) as [| i0 ir] eqn:Ei.
  - reflexivity.
  - rewrite len_map, len_cons.
    pose proof (len_nonneg ir).
    destruct (len ir + 1 =? 0) eqn:E0; [lia |]. cbn [negb].
    rewrite (getitem_in_range (i0 :: ir) 0 0)
      by (rewrite len_cons; lia).
    cbn [bind ret].
    rewrite getitem_bool by (eapply span_indices_head_in_range; eauto).
    reflexivity.
Qed.

Lemma span_indices_sorted (a : list bool) (outer : bool) :
  a <> [] -> StronglySorted Z.lt (span_indices a outer).
Proof.
  intros Ha. unfold span_indices. destruct outer; [| apply jumps_of_sorted].
  assert (Hs : StronglySorted Z.lt (jumps_of a ++ [len a])).
  { pose proof (jumps_of_sorted a) as Hj.
    pose proof (jumps_of_bounds a) as Hb.
    induction (jumps_of a) as [| j l IH]; simpl.
    - constructor; [constructor | constructor].
    - inversion Hj as [| ? ? Hl Hall]; subst. constructor.
      + apply IH; [exact Hl |]. intros z Hz. apply Hb. now right.
      + rewrite Forall_forall in *. intros z Hz.
        apply in_app_iff in Hz. destruct Hz as [Hz | [<- | []]].
        * now apply Hall.
        * specialize (Hb j (or_introl eq_refl)). lia. }
  simpl. constructor; [exact Hs |].
  rewrite Forall_forall. intros z Hz.
  apply in_app_iff in Hz. destruct Hz as [Hz | [<- | []]].
  - apply jumps_of_bounds in Hz. lia.
  - destruct a; [contradiction |]. rewrite len_cons.
    pose proof (len_nonneg a). lia.
Qed.

Lemma np_diff_sorted_pos (l : list Z) :
  StronglySorted Z.lt l -> Forall (fun d => 0 < d) (np_diff l).
Proof.
  induction 1 as [| x l Hs IH Hx]; [constructor |].
  destruct l as [| y r]; [constructor |].
  simpl. constructor; [| exact IH].
  rewrite Forall_forall in Hx. specialize (Hx y (or_introl eq_refl)). lia.
Qed.

Lemma last_cons_default (y : Z) (r : list Z) (d d' : Z) :
  last (y :: r) d = last (y :: r) d'.
Proof.
  revert y. induction r as [| z r IH]; intros y; [reflexivity |].
  change (last (z :: r) d = last (z :: r) d'). apply IH.
Qed.

(** The differences telescope. *)
Lemma np_sum_np_diff (x : Z) (l : list Z) :
  np_sum (np_diff (x :: l)) = last (x :: l) x - x.
Proof.
  revert x. induction l as [| y r IH]; intros x.
  - simpl. lia.
  - change (np_diff (x :: y :: r)) with ((y - x) :: np_diff (y :: r)).
    change (np_sum ((y - x) :: np_diff (y :: r)))
      with ((y - x) + np_sum (np_diff (y :: r))).
    rewrite IH.
    change (last (x :: y :: r) x) with (last (y :: r) x).
    rewrite (last_cons_default y r x y). lia.
Qed.

(** Induction two entries at a time, the recursion of [step2]. *)
Lemma list_ind2 {A : Type} (P : list A -> Prop) :
  P [] -> (forall x, P [x]) -> (forall x y l, P l -> P (x :: y :: l)) ->
  forall l, P l.
Proof.
  intros H0 H1 H2.
  assert (H : forall l, P l /\ forall x, P (x :: l)).
  { induction l as [| y l [IHa IHb]]; split; auto. }
  intros l. apply H.
Qed.

Lemma step2_incl {A : Type} (l : list A) (x : A) :
  In x (step2 l) -> In x l.
Proof.
  induction l as [| | y z l IH] using list_ind2; simpl; intros H.
  - exact H.
  - exact H.
  - destruct H as [H | H]; [now left | right; right; now apply IH].
Qed.

Lemma skipn_incl {A : Type} (k : nat) (l : list A) (x : A) :
  In x (skipn k l) -> In x l.
Proof.
  revert l. induction k as [| k IH]; intros l H; [exact H |].
  destruct l as [| y l]; [exact H |]. right. now apply IH.
Qed.

Lemma np_sum_nonneg (l : list Z) :
  Forall (fun d => 0 <= d) l -> 0 <= np_sum l.
Proof.
  induction 1 as [| x l Hx _ IH]; simpl; lia.
Qed.

Lemma np_sum_step2_le (l : list Z) :
  Forall (fun d => 0 <= d) l -> np_sum (step2 l) <= np_sum l.
Proof.
  induction l as [| | y z l IH] using list_ind2; intros H.
  - simpl. lia.
  - simpl. lia.
  - inversion H as [| ? ? Hy H']; subst.
    inversion H' as [| ? ? Hz H'']; subst.
    specialize (IH H''). simpl in *. lia.
Qed.

Lemma np_sum_skipn_le (k : nat) (l : list Z) :
  Forall (fun d => 0 <= d) l -> np_sum (skipn k l) <= np_sum l.
Proof.
  revert l. induction k as [| k IH]; intros l H; [simpl; lia |].
  destruct l as [| y l]; [simpl; lia |].
  inversion H as [| ? ? Hy H']; subst. specialize (IH l H').
  simpl in *. lia.
Qed.

Lemma Forall_skipn {A : Type} (P : A -> Prop) (k : nat) (l : list A) :
  Forall P l -> Forall P (skipn k l).
Proof.
  intros H. rewrite Forall_forall in *. intros x Hx.
  apply H. now apply skipn_incl in Hx.
Qed.

Lemma Forall_step2 {A : Type} (P : A -> Prop) (l : list A) :
  Forall P l -> Forall P (step2 l).
Proof.
  intros H. rewrite Forall_forall in *. intros x Hx.
  apply H. now apply step2_incl in Hx.
Qed.

(** Appending one more non-negative difference never lowers the sum of
    every second one. *)
Lemma np_sum_step2_snoc (l : list Z) (z : Z) :
  0 <= z -> np_sum (step2 l) <= np_sum (step2 (l ++ [z])).
Proof.
  intros Hz. induction l as [| | x y l IH] using list_ind2; simpl in *; lia.
Qed.

Lemma np_sum_slice_snoc (l : list Z) (z : Z) (offset : nat) :
  0 <= z -> Forall (fun d => 0 <= d) l ->
  np_sum (slice_from_step2 l offset)
  <= np_sum (slice_from_step2 (l ++ [z]) offset).
Proof.
  intros Hz Hl. unfold slice_from_step2.
  destruct (Nat.le_gt_cases offset (length l)) as [Hle | Hgt].
  - rewrite skipn_app.
    replace (offset - length l)%nat with 0%nat by lia.
    simpl skipn. now apply np_sum_step2_snoc.
  - rewrite (skipn_all2 l) by lia. simpl.
    apply np_sum_nonneg, Forall_step2, Forall_skipn.
    apply Forall_app. split; [exact Hl | constructor; [exact Hz | constructor]].
Qed.

Lemma np_diff_snoc (x : Z) (l : list Z) (z : Z) :
  np_diff ((x :: l) ++ [z]) = np_diff (x :: l) ++ [z - last (x :: l) x].
Proof.
  revert x. induction l as [| y r IH]; intros x; [reflexivity |].
  change (np_diff ((x :: y :: r) ++ [z]))
    with ((y - x) :: np_diff ((y :: r) ++ [z])).
  rewrite IH.
  change (last (x :: y :: r) x) with (last (y :: r) x).
  now rewrite (last_cons_default y r x y).
Qed.

Lemma Forall_pos_nonneg (l : list Z) :
  Forall (fun d => 0 < d) l -> Forall (fun d => 0 <= d) l.
Proof. apply Forall_impl. intros; lia. Qed.

Lemma last_jump_below (a : list bool) (j : Z) (l : list Z) :
  jumps_of a = j :: l -> last (j :: l) j < len a.
Proof.
  intros H.
  assert (Hin : In (last (j :: l) j) (jumps_of a)).
  { rewrite H. clear H. revert j. induction l as [| y r IH]; intros j.
    - now left.
    - right. change (last (j :: y :: r) j) with (last (y :: r) j).
      rewrite (last_cons_default y r j y). apply IH. }
  apply jumps_of_bounds in Hin. lia.
Qed.

(** Every reported span length is positive. *)
Lemma get_lengths_of_True_spans_pos (a : list bool) (outer : bool)
    (spans : list Z) :
  get_lengths_of_True_spans a outer = ret spans ->
  Forall (fun d => 0 < d) spans.
Proof.
  intros H. destruct a as [| x a]; [destruct outer; discriminate H |].
  rewrite get_lengths_of_True_spans_eq in H by discriminate.
  injection H as <-.
  destruct (span_indices (x :: a) outer) eqn:E; [constructor |].
  apply Forall_step2, Forall_skipn, np_diff_sorted_pos.
  rewrite <- E. apply span_indices_sorted. discriminate.
Qed.

Lemma step2_cons {A : Type} (x : A) (l : list A) :
  step2 (x :: l) = x :: step2 (skipn 1 l).
Proof. destruct l; reflexivity. Qed.

Lemma np_sum_outer_diffs (a : list bool) :
  np_sum (np_diff (span_indices a true)) = len a.
Proof.
  unfold span_indices. cbn [app].
  rewrite np_sum_np_diff.
  change (0 :: jumps_of a ++ [len a]) with ((0 :: jumps_of a) ++ [len a]).
  rewrite last_last. lia.
Qed.

Lemma np_sum_slice_le (l : list Z) (offset : nat) :
  Forall (fun d => 0 <= d) l ->
  0 <= np_sum (slice_from_step2 l offset) <= np_sum l.
Proof.
  intros H. unfold slice_from_step2. split.
  - now apply np_sum_nonneg, Forall_step2, Forall_skipn.
  - etransitivity; [apply np_sum_step2_le; now apply Forall_skipn |].
    now apply np_sum_skipn_le.
Qed.

(** ** C5 *)

(** C5: on a non-empty sequence both calls return, and the span lengths
    found without the outer spans sum to at most the sum of those found
    with them, which is at most the length of the sequence. *)
Theorem span_sums_ordered (seq : list bool) :
  seq <> [] ->
  exists inner outer,
    get_lengths_of_True_spans seq false = ret inner /\
    get_lengths_of_True_spans seq true = ret outer /\
    np_sum inner <= np_sum outer <= len seq.
Proof.
  intros Hne.
  rewrite !get_lengths_of_True_spans_eq by exact Hne.
  eexists. eexists. split; [reflexivity |]. split; [reflexivity |].
  pose proof (span_indices_sorted seq true Hne) as Hso.
  pose proof (Forall_pos_nonneg _ (np_diff_sorted_pos _ Hso)) as Hnn.
  assert (Hup : forall k,
    0 <= np_sum (slice_from_step2 (np_diff (span_indices seq true)) k)
      <= len seq).
  { intros k. rewrite <- (np_sum_outer_diffs seq).
    now apply np_sum_slice_le. }
  split.
  - destruct (span_indices seq false) as [| j0 js] eqn:Ej.
    + change (span_indices seq true) with (0 :: jumps_of seq ++ [len seq]).
      cbv iota. apply Hup.
    + change (span_indices seq true) with (0 :: jumps_of seq ++ [len seq])
        in *.
      cbv iota. unfold span_indices in Ej. rewrite Ej in *.
      rewrite (first_jump_flips seq j0 js Ej).
      change (np_diff (0 :: (j0 :: js) ++ [len seq]))
        with ((j0 - 0) :: np_diff ((j0 :: js) ++ [len seq])) in *.
      rewrite np_diff_snoc in *.
      inversion Hnn as [| ? ? Hj0 Hrest]; subst.
      apply Forall_app in Hrest. destruct Hrest as [HD Hz].
      inversion Hz as [| ? ? Hz0 _]; subst.
      destruct (zth seq 0); cbn [negb int_of_bool].
      * unfold slice_from_step2 at 2. cbn [skipn]. rewrite step2_cons.
        cbn [np_sum fold_right].
        pose proof (np_sum_slice_snoc (np_diff (j0 :: js))
                      (len seq - last (j0 :: js) j0) 1 Hz0 HD) as Hs.
        unfold slice_from_step2 in Hs at 2. unfold np_sum in *. lia.
      * unfold slice_from_step2 at 2. cbn [skipn].
        apply (np_sum_slice_snoc (np_diff (j0 :: js)) _ 0 Hz0 HD).
  - destruct (span_indices seq true) eqn:E; [| apply Hup].
    simpl. pose proof (len_nonneg seq). lia.
Qed.

Lemma span_sums_ordered_witness :
  exists inner outer,
    get_lengths_of_True_spans [T; T; F; T; F] false = ret inner /\
    get_lengths_of_True_spans [T; T; F; T; F] true = ret outer /\
    np_sum inner <= np_sum outer <= len [T; T; F; T; F].
Proof. apply (span_sums_ordered [T; T; F; T; F]). discriminate. Defined.

(** ** C7 *)

(** C7: on the empty sequence span extraction raises the assertion's
    error, whatever [outer_spans] is; it returns no span list. *)
Theorem get_lengths_of_True_spans_empty (outer_spans : bool) :
  get_lengths_of_True_spans [] outer_spans = raise AssertionError /\
  forall spans, get_lengths_of_True_spans [] outer_spans <> ret spans.
Proof.
  split; [destruct outer_spans; reflexivity |].
  intros spans. destruct outer_spans; discriminate.
Qed.

(** ** C10 *)

(** C10: the guard [len(indices >= 2)] holds exactly when the index array
    is non-empty; whenever it holds on a non-empty sequence, [indices[0]]
    exists and is a position of the sequence, so both reads succeed and the
    function returns a list of span lengths. *)
Theorem get_lengths_of_True_spans_total (bool_array : list bool)
    (outer_spans : bool) :
  bool_array <> [] ->
  let indices := span_indices bool_array outer_spans in
  (negb (len (map (fun i => 2 <=? i) indices) =? 0) = true <->
   indices <> []) /\
  (forall i0 ir, indices = i0 :: ir ->
     getitem indices 0 = ret i0 /\
     getitem bool_array i0 = ret (zth bool_array i0)) /\
  exists span_lengths,
    get_lengths_of_True_spans bool_array outer_spans = ret span_lengths.
Proof.
  intros Hne indices. split; [| split].
  - rewrite len_map. destruct indices as [| i0 ir].
    + simpl. split; [discriminate | congruence].
    + rewrite len_cons. pose proof (len_nonneg ir).
      destruct (len ir + 1 =? 0) eqn:E; [lia |].
      simpl. split; [discriminate | reflexivity].
  - intros i0 ir Hi. split.
    + rewrite Hi. reflexivity.
    + apply getitem_bool.
      apply (span_indices_head_in_range bool_array outer_spans i0 ir Hne Hi).
  - rewrite get_lengths_of_True_spans_eq by exact Hne. eexists. reflexivity.
Qed.

Lemma get_lengths_of_True_spans_total_witness :
  exists span_lengths,
    get_lengths_of_True_spans [F; T; T; F] false = ret span_lengths.
Proof.
  apply (get_lengths_of_True_spans_total [F; T; T; F] false). discriminate.
Defined.

(** ** Slice assignment *)

Lemma set_True_from_length (k lo hi : Z) (a : list bool) :
  length (set_True_from k lo hi a) = length a.
Proof.
  revert k. induction a as [| b a IH]; intros k; simpl; [reflexivity |].
  now rewrite IH.
Qed.

Lemma zth_set_True_from (k lo hi : Z) (a : list bool) (i : Z) :
  0 <= i < len a ->
  zth (set_True_from k lo hi a) i =
  if (lo <=? k + i) && (k + i <? hi) then true else zth a i.
Proof.
  revert k i. induction a as [| b a IH]; intros k i Hi.
  - unfold len in Hi. simpl in Hi. lia.
  - rewrite len_cons in Hi. simpl set_True_from.
    destruct (Z.eq_dec i 0) as [-> | Hne].
    + rewrite !zth_cons_0. now rewrite Z.add_0_r.
    + rewrite !zth_cons_pos by lia. rewrite IH by lia.
      now replace (k + 1 + (i - 1)) with (k + i) by lia.
Qed.

Lemma setslice_True_length (a : list bool) (lo hi : Z) :
  length (setslice_True a lo hi) = length a.
Proof. apply set_True_from_length. Qed.

Lemma zth_setslice_True (a : list bool) (lo hi i : Z) :
  0 <= i < len a ->
  zth (setslice_True a lo hi) i =
  if (slice_bound (len a) lo <=? i) && (i <? slice_bound (len a) hi)
  then true else zth a i.
Proof.
  intros Hi. unfold setslice_True. now rewrite zth_set_True_from.
Qed.

Lemma setslice_True_mono (a : list bool) (lo hi i : Z) :
  0 <= i < len a -> zth a i = true -> zth (setslice_True a lo hi) i = true.
Proof.
  intros Hi H. rewrite zth_setslice_True by exact Hi.
  now destruct (_ && _).
Qed.

Lemma slice_bound_in_range (n i : Z) : 0 <= i <= n -> slice_bound n i = i.
Proof.
  intros H. unfold slice_bound. destruct (i <? 0) eqn:E; lia.
Qed.

Lemma len_setslice_True (a : list bool) (lo hi : Z) :
  len (setslice_True a lo hi) = len a.
Proof. unfold len. now rewrite setslice_True_length. Qed.

(** ** Consecutive entries of a sorted index array *)

Lemma combine_removelast_tl {A : Type} (l : list A) :
  combine (removelast l) (tl l) = combine l (tl l).
Proof.
  induction l as [| x l IH]; [reflexivity |].
  destruct l as [| y r]; [reflexivity |].
  change (removelast (x :: y :: r)) with (x :: removelast (y :: r)).
  change (tl (x :: y :: r)) with (y :: r).
  change (tl (y :: r)) with r in IH.
  destruct r as [| z r']; [reflexivity |].
  change (combine (x :: removelast (y :: z :: r')) (y :: z :: r'))
    with ((x, y) :: combine (removelast (y :: z :: r')) (z :: r')).
  now rewrite IH.
Qed.

Lemma In_consecutive (l : list Z) (p q : Z) :
  StronglySorted Z.lt l -> In (p, q) (combine l (tl l)) ->
  In p l /\ In q l /\ p < q /\ forall x, In x l -> ~ (p < x < q).
Proof.
  induction 1 as [| x l Hs IH Hx]; intros Hin; [contradiction |].
  destruct l as [| y r]; [contradiction |].
  change (combine (x :: y :: r) (tl (x :: y :: r)))
    with ((x, y) :: combine (y :: r) (tl (y :: r))) in Hin.
  rewrite Forall_forall in Hx.
  destruct Hin as [Heq | Hin].
  - injection Heq as <- <-. repeat split.
    + now left.
    + right. now left.
    + apply Hx. now left.
    + intros z [<- | [<- | Hz]] Hlt; try lia.
      inversion Hs as [| ? ? _ Hy]; subst.
      rewrite Forall_forall in Hy. specialize (Hy z Hz). lia.
  - destruct (IH Hin) as (Hp & Hq & Hlt & Hno). repeat split.
    + now right.
    + now right.
    + exact Hlt.
    + intros z [<- | Hz] Hz'; [| now apply (Hno z)].
      specialize (Hx p Hp). lia.
Qed.

Lemma consecutive_In (l : list Z) (p q : Z) :
  StronglySorted Z.lt l -> In p l -> In q l -> p < q ->
  (forall x, In x l -> ~ (p < x < q)) ->
  In (p, q) (combine l (tl l)).
Proof.
  induction 1 as [| x l Hs IH Hx]; intros Hp Hq Hlt Hno; [contradiction |].
  destruct l as [| y r].
  - destruct Hp as [<- | []]. destruct Hq as [<- | []]. lia.
  - change (combine (x :: y :: r) (tl (x :: y :: r)))
      with ((x, y) :: combine (y :: r) (tl (y :: r))).
    rewrite Forall_forall in Hx.
    destruct Hp as [<- | Hp].
    + left. f_equal.
      destruct Hq as [<- | Hq]; [lia |].
      pose proof (Hx y (or_introl eq_refl)) as Hxy.
      pose proof (Hx q Hq) as Hxq.
      destruct (Z.eq_dec y q) as [E | E]; [exact E |].
      exfalso. apply (Hno y); [right; now left |].
      destruct Hq as [Hq | Hq]; [congruence |].
      inversion Hs as [| ? ? _ Hy]; subst.
      rewrite Forall_forall in Hy. specialize (Hy q Hq). lia.
    + right. apply IH; auto.
      * destruct Hq as [<- | Hq]; [| exact Hq].
        specialize (Hx p Hp). lia.
      * intros z Hz. apply Hno. now right.
Qed.

(** Two pairs of consecutive entries that overlap are one pair. *)
Lemma consecutive_overlap (l : list Z) (p q p' q' : Z) :
  StronglySorted Z.lt l ->
  In (p, q) (combine l (tl l)) -> In (p', q') (combine l (tl l)) ->
  p <= p' < q -> p' = p /\ q' = q.
Proof.
  intros Hs H H' Hov.
  destruct (In_consecutive l p q Hs H) as (Hp & Hq & Hlt & Hno).
  destruct (In_consecutive l p' q' Hs H') as (Hp' & Hq' & Hlt' & Hno').
  assert (p' = p).
  { destruct (Z.eq_dec p' p); [assumption |].
    exfalso. apply (Hno p' Hp'). lia. }
  subst p'. split; [reflexivity |].
  destruct (Z.lt_trichotomy q' q) as [Hc | [Hc | Hc]]; [| exact Hc |].
  - exfalso. apply (Hno q' Hq'). lia.
  - exfalso. apply (Hno' q Hq). lia.
Qed.

(** ** The spans selected by [remove_small_False_spans] *)

Lemma getitem_app_len {A : Type} (pre : list A) (x : A) (l : list A) :
  getitem (pre ++ x :: l) (len pre) = ret x.
Proof.
  rewrite (getitem_in_range _ _ x).
  - unfold len. rewrite Nat2Z.id. now rewrite nth_middle.
  - rewrite len_app, len_cons.
    pose proof (len_nonneg pre). pose proof (len_nonneg l). lia.
Qed.

Lemma getitem_app_len_succ {A : Type} (pre : list A) (x y : A)
    (l : list A) :
  getitem (pre ++ x :: y :: l) (len pre + 1) = ret y.
Proof.
  replace (pre ++ x :: y :: l) with ((pre ++ [x]) ++ y :: l)
    by now rewrite <- app_assoc.
  replace (len pre + 1) with (len (pre ++ [x])).
  - apply getitem_app_len.
  - rewrite len_app. reflexivity.
Qed.

(** Fancy indexing with the positions of the small differences picks the
    consecutive pairs whose difference is small. *)
Lemma take_small_spans (f : Z -> bool) (l pre : list Z) :
  let small := filter (fun s => f (snd s - fst s)) (combine l (tl l)) in
  let idx := argwhere_from (len pre) (map f (np_diff l)) in
  take (pre ++ l) idx = ret (map fst small) /\
  take (pre ++ l) (map (fun i => i + 1) idx) = ret (map snd small).
Proof.
  revert pre. induction l as [| x l IH]; intros pre; [now split |].
  destruct l as [| y r]; [now split |].
  change (np_diff (x :: y :: r)) with ((y - x) :: np_diff (y :: r)).
  change (combine (x :: y :: r) (tl (x :: y :: r)))
    with ((x, y) :: combine (y :: r) (tl (y :: r))).
  cbn [map argwhere_from filter fst snd].
  specialize (IH (pre ++ [x])).
  rewrite <- app_assoc in IH. cbn [app] in IH.
  rewrite len_app in IH. change (len [x]) with 1 in IH.
  cbv zeta in IH. destruct IH as [IH1 IH2].
  destruct (f (y - x)); cbn [app map take].
  - rewrite getitem_app_len, getitem_app_len_succ. cbn [bind ret].
    rewrite IH1, IH2. now split.
  - now split.
Qed.

Lemma combine_fst_snd {A B : Type} (l : list (A * B)) :
  combine (map fst l) (map snd l) = l.
Proof.
  induction l as [| [a b] l IH]; simpl; [reflexivity | now rewrite IH].
Qed.

(** The spans the loop of [remove_small_False_spans] runs over. *)
Lemma remove_small_False_spans_eq (a : list bool) (m : Z) :
  remove_small_False_spans a m =
  remove_loop
    (filter (fun s => snd s - fst s <=? m)
       (combine (jumps_of a) (tl (jumps_of a)))) a.
Proof.
  unfold remove_small_False_spans, argwhere. cbv zeta.
  destruct (take_small_spans (fun d => d <=? m) (jumps_of a) []) as [H1 H2].
  cbn [app] in H1, H2. change (len []) with 0 in H1, H2.
  rewrite H1. cbn [bind ret]. rewrite H2. cbn [bind ret].
  now rewrite combine_fst_snd.
Qed.

(** ** The gap loops *)

Lemma remove_loop_gap (spans : list (Z * Z)) (a : list bool) :
  remove_loop spans a = gap_loop (fun _ s1 => s1) spans a.
Proof.
  revert a. induction spans as [| [s0 s1] rest IH]; intros a; simpl.
  - reflexivity.
  - destruct (getitem a s0); simpl; [reflexivity | apply IH].
Qed.

Lemma delay_loop_gap (n d : Z) (spans : list (Z * Z)) (a : list bool) :
  delay_loop n d spans a =
  gap_loop (fun s0 _ => Z.min (add64 s0 d) n) spans a.
Proof.
  revert a. induction spans as [| [s0 s1] rest IH]; intros a; simpl.
  - reflexivity.
  - destruct (getitem a s0); simpl; [reflexivity | apply IH].
Qed.

Section GapLoop.

Variable upto : Z -> Z -> Z.

(** One turn of the loop on a span that starts inside the array. *)
Lemma gap_loop_cons (s : Z * Z) (rest : list (Z * Z)) (cur : list bool) :
  0 <= fst s < len cur ->
  gap_loop upto (s :: rest) cur =
  gap_loop upto rest
    (if zth cur (fst s)
     then cur else setslice_True cur (fst s) (upto (fst s) (snd s))).
Proof.
  intros Hs. destruct s as [s0 s1]. cbn [fst snd] in *.
  cbn [gap_loop]. rewrite getitem_bool by exact Hs. cbn [bind ret].
  now destruct (zth cur s0).
Qed.

Lemma gap_step_length (s : Z * Z) (cur : list bool) :
  length (if zth cur (fst s)
          then cur else setslice_True cur (fst s) (upto (fst s) (snd s)))
  = length cur.
Proof.
  destruct (zth cur (fst s)); [reflexivity | apply setslice_True_length].
Qed.

Lemma gap_step_mono (s : Z * Z) (cur : list bool) (i : Z) :
  0 <= i < len cur -> zth cur i = true ->
  zth (if zth cur (fst s)
       then cur else setslice_True cur (fst s) (upto (fst s) (snd s))) i
  = true.
Proof.
  intros Hi H. destruct (zth cur (fst s)); [exact H |].
  now apply setslice_True_mono.
Qed.

(** The loop returns, keeps the length and never clears a frame. *)
Lemma gap_loop_mono (spans : list (Z * Z)) (cur : list bool) :
  (forall s, In s spans -> 0 <= fst s < len cur) ->
  exists r, gap_loop upto spans cur = ret r /\ length r = length cur /\
    forall i, 0 <= i < len cur -> zth cur i = true -> zth r i = true.
Proof.
  revert cur. induction spans as [| s rest IH]; intros cur Hin.
  - exists cur. repeat split; auto.
  - rewrite gap_loop_cons by (apply Hin; now left).
    pose proof (gap_step_length s cur) as Hl.
    destruct (IH (if zth cur (fst s) then cur
                  else setslice_True cur (fst s) (upto (fst s) (snd s))))
      as (r & Hr & Hlen & Hmono).
    + intros s' Hs'. unfold len. rewrite Hl. apply Hin. now right.
    + exists r. split; [exact Hr |]. split; [congruence |].
      intros i Hi H. apply Hmono.
      * unfold len in *. now rewrite Hl.
      * now apply gap_step_mono.
Qed.

(** A frame that is True afterwards was True before or lies in the
    window of a span whose first frame was False before. *)
Lemma gap_loop_upper (spans : list (Z * Z)) (cur r : list bool) (i : Z) :
  (forall s, In s spans -> 0 <= fst s < len cur) ->
  gap_loop upto spans cur = ret r ->
  0 <= i < len cur -> zth r i = true ->
  zth cur i = true \/
  exists s, In s spans /\ zth cur (fst s) = false /\
            window upto (len cur) s i.
Proof.
  revert cur. induction spans as [| s rest IH]; intros cur Hin Hr Hi H.
  - injection Hr as <-. now left.
  - rewrite gap_loop_cons in Hr by (apply Hin; now left).
    pose proof (gap_step_length s cur) as Hl.
    assert (Hlen : len (if zth cur (fst s) then cur
                        else setslice_True cur (fst s)
                               (upto (fst s) (snd s))) = len cur).
    { unfold len. now rewrite Hl. }
    specialize (IH _ (fun s' Hs' =>
      eq_ind_r (fun n => 0 <= fst s' < n) (Hin s' (or_intror Hs')) Hlen)
      Hr).
    rewrite Hlen in IH. specialize (IH Hi H).
    destruct (zth cur (fst s)) eqn:Es.
    + destruct IH as [IH | (s' & Hs' & Hf & Hw)]; [now left |].
      right. exists s'. split; [now right |]. now split.
    + destruct IH as [IH | (s' & Hs' & Hf & Hw)].
      * rewrite zth_setslice_True in IH by exact Hi.
        destruct (_ && _) eqn:Ew; [| now left].
        right. exists s. split; [now left |]. split; [exact Es |].
        apply andb_true_iff in Ew. destruct Ew as [E1 E2].
        unfold window.
        rewrite slice_bound_in_range in E1
          by (specialize (Hin s (or_introl eq_refl)); lia).
        lia.
      * right. exists s'. split; [now right |]. split; [| exact Hw].
        assert (Hs'r : 0 <= fst s' < len cur)
          by (apply Hin; now right).
        rewrite zth_setslice_True in Hf by exact Hs'r.
        now destruct (_ && _).
Qed.

(** The window of a span whose first frame was False before is set,
    provided every window that reaches the span's first frame also
    reaches the frame asked about. *)
Lemma gap_loop_lower (spans : list (Z * Z)) (cur r : list bool)
    (s : Z * Z) (i : Z) :
  (forall s', In s' spans -> 0 <= fst s' < len cur) ->
  gap_loop upto spans cur = ret r ->
  In s spans -> zth cur (fst s) = false ->
  window upto (len cur) s i -> i < len cur ->
  (forall s', In s' spans -> zth cur (fst s') = false ->
     window upto (len cur) s' (fst s) -> window upto (len cur) s' i) ->
  zth r i = true.
Proof.
  revert cur. induction spans as [| s0 rest IH];
    intros cur Hin Hr Hs Hf Hw Hi Hov; [contradiction |].
  pose proof (Hin s0 (or_introl eq_refl)) as Hs0.
  rewrite gap_loop_cons in Hr by exact Hs0.
  pose proof (gap_step_length s0 cur) as Hl.
  set (cur1 := if zth cur (fst s0) then cur
               else setslice_True cur (fst s0)
                      (upto (fst s0) (snd s0))) in *.
  assert (Hlen : len cur1 = len cur) by (unfold len; now rewrite Hl).
  assert (Hin1 : forall s', In s' rest -> 0 <= fst s' < len cur1).
  { intros s' Hs'. rewrite Hlen. apply Hin. now right. }
  assert (Hir : 0 <= i < len cur).
  { pose proof (Hin s (Hs)) as Hsr. unfold window in Hw. lia. }
  destruct (gap_loop_mono rest cur1 Hin1) as (r' & Hr' & _ & Hmono).
  rewrite Hr in Hr'. injection Hr' as <-.
  destruct (zth cur (fst s0)) eqn:E0.
  - (* the first span does not fire *)
    destruct Hs as [-> | Hs]; [congruence |].
    subst cur1. apply (IH cur Hin1 Hr Hs Hf Hw Hi).
    intros s' Hs'. apply Hov. now right.
  - (* the first span fires *)
    assert (Hcases : window upto (len cur) s0 i \/
                     ~ window upto (len cur) s0 i).
    { unfold window. lia. }
    destruct Hcases as [Hc | Hc].
    + apply Hmono; [now rewrite Hlen |]. subst cur1.
      rewrite zth_setslice_True by exact Hir.
      unfold window in Hc.
      rewrite (slice_bound_in_range (len cur) (fst s0)) by lia.
      destruct (_ && _) eqn:Ew; [reflexivity |].
      apply andb_false_iff in Ew. destruct Ew; lia.
    + destruct Hs as [-> | Hs]; [contradiction |].
      assert (Hnp : ~ window upto (len cur) s0 (fst s)).
      { intros Hp. apply Hc. apply Hov; [now left | exact E0 | exact Hp]. }
      assert (Hf1 : zth cur1 (fst s) = false).
      { subst cur1. rewrite zth_setslice_True
          by (apply Hin; now right).
        unfold window in Hnp.
        rewrite (slice_bound_in_range (len cur) (fst s0)) by lia.
        destruct (_ && _) eqn:Ew; [| exact Hf].
        apply andb_true_iff in Ew. destruct Ew; lia. }
      apply (IH cur1 Hin1 Hr Hs Hf1).
      * now rewrite Hlen.
      * now rewrite Hlen.
      * rewrite Hlen. intros s' Hs' Hf' Hw'.
        apply Hov; [now right | | exact Hw'].
        destruct (zth cur (fst s')) eqn:E'; [| reflexivity].
        subst cur1. rewrite setslice_True_mono in Hf'.
        -- discriminate.
        -- apply Hin. now right.
        -- exact E'.
Qed.

End GapLoop.

(** ** Runs and jumps *)

(** Between two positions with no jump after the first, the array is
    constant. *)
Lemma constant_without_jumps (a : list bool) (p k : Z) :
  0 <= p <= k -> k < len a ->
  (forall x, p < x <= k -> ~ In x (jumps_of a)) ->
  zth a k = zth a p.
Proof.
  intros [Hp Hpk] Hk Hno.
  replace k with (p + Z.of_nat (Z.to_nat (k - p))) in * by lia.
  induction (Z.to_nat (k - p)) as [| n IH].
  - f_equal. lia.
  - rewrite <- IH by (try lia; intros x Hx; apply Hno; lia).
    destruct (Bool.bool_dec (zth a (p + Z.of_nat (S n)))
                (zth a (p + Z.of_nat n))) as [E | E]; [exact E |].
    exfalso. apply (Hno (p + Z.of_nat (S n))); [lia |].
    apply In_jumps_of. split; [lia |].
    now replace (p + Z.of_nat (S n) - 1) with (p + Z.of_nat n) by lia.
Qed.

Lemma jump_after_True (a : list bool) (p : Z) :
  In p (jumps_of a) -> zth a p = false -> zth a (p - 1) = true.
Proof.
  intros H Hf. apply In_jumps_of in H. destruct H as [_ Hne].
  rewrite Hf in Hne. now destruct (zth a (p - 1)).
Qed.

Lemma jump_before_True (a : list bool) (q : Z) :
  In q (jumps_of a) -> zth a (q - 1) = false -> zth a q = true.
Proof.
  intros H Hf. apply In_jumps_of in H. destruct H as [_ Hne].
  rewrite Hf in Hne. now destruct (zth a q).
Qed.

(** The spans [remove_small_False_spans] fills are the small gaps. *)
Lemma small_False_span_gap (a : list bool) (m i : Z) :
  (exists s, In s (filter (fun s => snd s - fst s <=? m)
                     (combine (jumps_of a) (tl (jumps_of a)))) /\
             zth a (fst s) = false /\
             window (fun _ s1 => s1) (len a) s i)
  <-> in_small_gap a m i.
Proof.
  pose proof (jumps_of_sorted a) as Hso. split.
  - intros ([p q] & Hin & Hf & Hw). cbn [fst snd] in *.
    apply filter_In in Hin. destruct Hin as [Hin Hm]. cbn [fst snd] in Hm.
    destruct (In_consecutive _ p q Hso Hin) as (Hp & Hq & Hlt & Hno).
    pose proof (jumps_of_bounds a p Hp) as Hpb.
    pose proof (jumps_of_bounds a q Hq) as Hqb.
    unfold window in Hw. cbn [fst snd] in Hw.
    rewrite slice_bound_in_range in Hw by lia.
    assert (Hrun : forall k, p <= k < q -> zth a k = false).
    { intros k Hk. rewrite <- Hf.
      apply constant_without_jumps; [lia | lia |].
      intros x Hx Hj. apply (Hno x Hj). lia. }
    exists p, q. repeat split; try lia.
    + exact Hrun.
    + right. now apply jump_after_True.
    + right. apply jump_before_True; [exact Hq |]. apply Hrun. lia.
  - intros (s & e & Hrun & Hs & He & Hm & Hi).
    destruct Hrun as (Hse & _ & Hfalse & Hleft & Hright).
    destruct Hleft as [-> | Hleft]; [lia |].
    destruct Hright as [-> | Hright]; [lia |].
    exists (s, e). cbn [fst snd]. split; [| split].
    + apply filter_In. cbn [fst snd]. split; [| lia].
      apply consecutive_In; [exact Hso | | | lia |].
      * apply In_jumps_of. split; [lia |].
        rewrite Hleft, (Hfalse s) by lia. discriminate.
      * apply In_jumps_of. split; [lia |].
        rewrite Hright, (Hfalse (e - 1)) by lia. discriminate.
      * intros x Hx Hlt. apply In_jumps_of in Hx. destruct Hx as [_ Hne].
        apply Hne. rewrite !Hfalse by lia. reflexivity.
    + apply Hfalse. lia.
    + unfold window. cbn [fst snd].
      rewrite slice_bound_in_range by lia. lia.
Qed.

Lemma small_spans_in_range (a : list bool) (m : Z) (s : Z * Z) :
  In s (filter (fun s => snd s - fst s <=? m)
          (combine (jumps_of a) (tl (jumps_of a)))) ->
  0 <= fst s < len a.
Proof.
  intros H. apply filter_In in H. destruct H as [H _]. destruct s as [p q].
  apply In_consecutive in H; [| apply jumps_of_sorted].
  destruct H as (Hp & _). apply jumps_of_bounds in Hp. cbn [fst]. lia.
Qed.

(** What [remove_small_False_spans] returns, frame by frame. *)
Lemma remove_small_False_spans_frames (a : list bool) (m : Z) :
  exists r, remove_small_False_spans a m = ret r /\
    length r = length a /\
    forall i, 0 <= i < len a ->
      (zth r i = true <-> zth a i = true \/ in_small_gap a m i).
Proof.
  rewrite remove_small_False_spans_eq, remove_loop_gap.
  set (spans := filter _ _).
  pose proof (small_spans_in_range a m) as Hin. fold spans in Hin.
  destruct (gap_loop_mono (fun _ s1 => s1) spans a Hin)
    as (r & Hr & Hlen & Hmono).
  exists r. split; [exact Hr |]. split; [exact Hlen |].
  intros i Hi. rewrite <- small_False_span_gap. fold spans. split.
  - intros H. now apply (gap_loop_upper _ spans a r i Hin Hr Hi H).
  - intros [H | (s & Hs & Hf & Hw)]; [now apply Hmono |].
    apply (gap_loop_lower _ spans a r s i Hin Hr Hs Hf Hw); [lia |].
    intros [p' q'] Hs' Hf' Hw'. destruct s as [p q].
    unfold spans in Hs, Hs'. apply filter_In in Hs, Hs'.
    destruct Hs as [Hs _]. destruct Hs' as [Hs' _].
    pose proof (jumps_of_sorted a) as Hso.
    destruct (In_consecutive _ p' q' Hso Hs') as (Hp' & Hq' & _).
    apply jumps_of_bounds in Hp', Hq'.
    unfold window in *. cbn [fst snd] in *.
    rewrite slice_bound_in_range in Hw' by lia.
    destruct (consecutive_overlap _ p' q' p q Hso Hs' Hs Hw') as [-> ->].
    exact Hw.
Qed.

(** Two maximal False-runs that share a frame are one run. *)
Lemma False_run_unique (a : list bool) (s e s' e' i : Z) :
  False_run a s e -> False_run a s' e' ->
  s <= i < e -> s' <= i < e' -> s = s' /\ e = e'.
Proof.
  intros (Hse & He & Hf & Hl & Hr) (Hse' & He' & Hf' & Hl' & Hr') Hi Hi'.
  split.
  - destruct (Z.lt_trichotomy s s') as [Hc | [Hc | Hc]]; [| exact Hc |].
    + destruct Hl' as [-> | Hl']; [lia |].
      rewrite Hf in Hl' by lia. discriminate.
    + destruct Hl as [-> | Hl]; [lia |].
      rewrite Hf' in Hl by lia. discriminate.
  - destruct (Z.lt_trichotomy e e') as [Hc | [Hc | Hc]]; [| exact Hc |].
    + destruct Hr as [-> | Hr]; [lia |].
      rewrite Hf' in Hr by lia. discriminate.
    + destruct Hr' as [-> | Hr']; [lia |].
      rewrite Hf in Hr' by lia. discriminate.
Qed.

Lemma not_true_false (b : bool) : ~ b = true -> b = false.
Proof. now destruct b. Qed.

Lemma count_True_mono (a b : list bool) :
  length a = length b ->
  (forall i, 0 <= i < len a -> zth a i = true -> zth b i = true) ->
  count_True a <= count_True b.
Proof.
  unfold count_True. revert b.
  induction a as [| x a IH]; intros [| y b] Hl H;
    [apply Z.le_refl | discriminate Hl | discriminate Hl |].
  assert (IH' : len (filter (fun b => b) a) <= len (filter (fun b => b) b)).
  { apply IH; [now injection Hl |]. intros i Hi Hx.
    specialize (H (i + 1)). rewrite !zth_cons_succ in H by lia.
    apply H; [rewrite len_cons; lia | exact Hx]. }
  specialize (H 0). rewrite !zth_cons_0, len_cons in H.
  pose proof (len_nonneg a).
  cbn [filter]. destruct x.
  - rewrite H by (try lia; reflexivity). rewrite !len_cons. lia.
  - destruct y; rewrite ?len_cons; lia.
Qed.

(** ** C3 *)

(** C3: [remove_small_False_spans] returns an array of the same length in
    which a frame is True exactly when it was True or lies in a False-run of
    length at most [max_gap] with a True frame on either side.  So every
    frame of such a run is flipped, a False-run that touches the start or
    the end of the sequence or is longer than [max_gap] keeps all its
    frames False, and with [max_gap <= 0] the sequence is unchanged. *)
Theorem remove_small_False_spans_spec (a : list bool) (max_gap : Z) :
  exists r, remove_small_False_spans a max_gap = ret r /\
    length r = length a /\
    (forall i, 0 <= i < len a ->
       (zth r i = true <-> zth a i = true \/ in_small_gap a max_gap i)) /\
    (forall s e, False_run a s e -> 0 < s -> e < len a ->
       e - s <= max_gap -> forall i, s <= i < e -> zth r i = true) /\
    (forall s e, False_run a s e ->
       s = 0 \/ e = len a \/ max_gap < e - s ->
       forall i, s <= i < e -> zth r i = false) /\
    (max_gap <= 0 -> r = a).
Proof.
  destruct (remove_small_False_spans_frames a max_gap)
    as (r & Hr & Hlen & Hfr).
  exists r. split; [exact Hr |]. split; [exact Hlen |].
  split; [exact Hfr |]. split; [| split].
  - intros s e Hrun Hs He Hm i Hi. apply Hfr.
    + destruct Hrun as (? & ? & _). lia.
    + right. exists s, e. split; [exact Hrun | lia].
  - intros s e Hrun Hb i Hi. apply not_true_false. intros Ht.
    assert (Hir : 0 <= i < len a) by (destruct Hrun as (? & ? & _); lia).
    apply Hfr in Ht; [| exact Hir].
    destruct Ht as [Ht | (s' & e' & Hrun' & Hs' & He' & Hm' & Hi')].
    + destruct Hrun as (_ & _ & Hf & _). rewrite Hf in Ht by exact Hi.
      discriminate.
    + destruct (False_run_unique a s e s' e' i Hrun Hrun' Hi Hi')
        as [-> ->]. lia.
  - intros Hm. symmetry. apply zth_ext; [now symmetry |].
    intros i Hi. specialize (Hfr i Hi).
    destruct (zth a i) eqn:Ea.
    + symmetry. apply Hfr. now left.
    + symmetry. apply not_true_false. intros Ht. apply Hfr in Ht.
      destruct Ht as [Ht | (s & e & Hrun & _ & _ & Hm' & _)];
        [discriminate |].
      destruct Hrun as (? & _). lia.
Qed.

(** ** C6 *)

(** C6: applying [remove_small_False_spans] to its own result with the
    same threshold returns that result again. *)
Theorem remove_small_False_spans_idempotent (a : list bool) (max_gap : Z) :
  exists r, remove_small_False_spans a max_gap = ret r /\
            remove_small_False_spans r max_gap = ret r.
Proof.
  destruct (remove_small_False_spans_frames a max_gap)
    as (r & Hr & Hlen & Hfr).
  destruct (remove_small_False_spans_frames r max_gap)
    as (r2 & Hr2 & Hlen2 & Hfr2).
  exists r. split; [exact Hr |]. rewrite Hr2. f_equal.
  assert (Hl : len r = len a) by (unfold len; now rewrite Hlen).
  apply zth_ext; [exact Hlen2 |].
  intros i Hi. rewrite Hl in Hfr2.
  assert (Hi' : 0 <= i < len a) by (unfold len in *; lia).
  destruct (zth r i) eqn:Er.
  - apply Hfr2; [exact Hi' | now left].
  - apply not_true_false. intros Ht. apply Hfr2 in Ht; [| exact Hi'].
    destruct Ht as [Ht | (s & e & Hrun & Hs & He & Hm & Hse)];
      [congruence |].
    destruct Hrun as (Hlt & Hel & Hf & Hleft & Hright).
    rewrite Hl in *.
    (* the gap of [r] is already a gap of [a], so frame [i] was filled *)
    assert (Hfa : forall k, s <= k < e -> zth a k = false).
    { intros k Hk. apply not_true_false. intros Hka.
      assert (zth r k = true) by (apply Hfr; [lia | now left]).
      rewrite Hf in H by exact Hk. discriminate. }
    assert (Hnog : forall k, s <= k < e -> ~ in_small_gap a max_gap k).
    { intros k Hk Hg.
      assert (zth r k = true) by (apply Hfr; [lia | now right]).
      rewrite Hf in H by exact Hk. discriminate. }
    assert (Hla : zth a (s - 1) = true).
    { destruct Hleft as [-> | Hleft]; [lia |].
      apply Hfr in Hleft; [| lia].
      destruct Hleft as [Ha | (s' & e' & Hrun' & Hs' & He' & Hm' & Hi1)];
        [exact Ha |].
      exfalso. pose proof Hrun' as (Hlt' & Hel' & Hf' & Hleft' & Hright').
      destruct (Z.eq_dec e' s) as [-> | Hne].
      - destruct Hright' as [-> | Hright']; [lia |].
        rewrite Hfa in Hright' by lia. discriminate.
      - apply (Hnog s); [lia |].
        exists s', e'. split; [exact Hrun' | lia]. }
    assert (Hra : zth a e = true).
    { destruct Hright as [-> | Hright]; [lia |].
      apply Hfr in Hright; [| lia].
      destruct Hright as [Ha | (s' & e' & Hrun' & Hs' & He' & Hm' & Hi1)];
        [exact Ha |].
      exfalso. pose proof Hrun' as (Hlt' & Hel' & Hf' & Hleft' & Hright').
      destruct (Z.eq_dec s' e) as [-> | Hne].
      - destruct Hleft' as [-> | Hleft']; [lia |].
        rewrite Hfa in Hleft' by lia. discriminate.
      - apply (Hnog (e - 1)); [lia |].
        exists s', e'. split; [exact Hrun' | lia]. }
    apply (Hnog i Hse).
    exists s, e. split; [| lia].
    repeat split; auto; lia.
Qed.

(** ** The spans of [delay_true_spans] *)

Lemma wrap64_in_range (x : Z) : - 2 ^ 63 <= x < 2 ^ 63 -> wrap64 x = x.
Proof.
  intros H. unfold wrap64. rewrite Z.mod_small; lia.
Qed.

Lemma delay_true_spans_eq (a : list bool) (d : Z) :
  delay_true_spans a d =
  gap_loop (fun s0 _ => Z.min (add64 s0 d) (len a))
    (combine (jumps_of a) (tl (jumps_of a ++ [len a]))) a.
Proof.
  unfold delay_true_spans. cbv zeta.
  now rewrite delay_loop_gap, removelast_last.
Qed.

Lemma delay_spans_in_range (a : list bool) (s : Z * Z) :
  In s (combine (jumps_of a) (tl (jumps_of a ++ [len a]))) ->
  In (fst s) (jumps_of a) /\ 0 <= fst s < len a.
Proof.
  intros H. destruct s as [p q]. apply in_combine_l in H. cbn [fst].
  split; [exact H |]. apply jumps_of_bounds in H. lia.
Qed.

Lemma In_combine_next (l : list Z) (x p : Z) :
  In p l -> exists q, In (p, q) (combine l (tl (l ++ [x]))).
Proof.
  induction l as [| y l IH]; intros H; [contradiction |].
  destruct l as [| z r].
  - destruct H as [<- | []]. exists x. now left.
  - change (combine (y :: z :: r) (tl ((y :: z :: r) ++ [x])))
      with ((y, z) :: combine (z :: r) (tl ((z :: r) ++ [x]))).
    destruct H as [<- | H].
    + exists z. now left.
    + destruct (IH H) as [q Hq]. exists q. now right.
Qed.

(** The window of a span of [delay_true_spans] when the sum stays inside
    int64. *)
Lemma delay_window (a : list bool) (d : Z) (s : Z * Z) (i : Z) :
  0 <= d -> len a + d < 2 ^ 63 -> 0 <= fst s < len a ->
  (window (fun s0 _ => Z.min (add64 s0 d) (len a)) (len a) s i <->
   fst s <= i < Z.min (fst s + d) (len a)).
Proof.
  intros Hd Hn Hs. unfold window, add64.
  rewrite wrap64_in_range by lia.
  rewrite slice_bound_in_range by lia. reflexivity.
Qed.

Lemma remove_small_False_spans_mono (a : list bool) (m : Z) :
  exists r, remove_small_False_spans a m = ret r /\
    length r = length a /\
    forall i, 0 <= i < len a -> zth a i = true -> zth r i = true.
Proof.
  rewrite remove_small_False_spans_eq, remove_loop_gap.
  apply gap_loop_mono. apply small_spans_in_range.
Qed.

Lemma delay_true_spans_mono (a : list bool) (d : Z) :
  exists r, delay_true_spans a d = ret r /\
    length r = length a /\
    forall i, 0 <= i < len a -> zth a i = true -> zth r i = true.
Proof.
  rewrite delay_true_spans_eq.
  apply gap_loop_mono. intros s Hs. now apply delay_spans_in_range.
Qed.

(** ** C2 *)

(** C2, as stated, fails: a False-run that starts at index 0 is never
    extended ([F; T] with delay 1 is returned unchanged), and a False-run
    whose first frame was set by the window of an earlier run is passed
    over (in [T; F; T; F; F; F; F] with delay 3 the run at 3 keeps frames 4
    and 5 False). *)
Lemma delay_true_spans_not_every_run :
  ~ delays_every_False_run [F; T] 1 /\
  ~ delays_every_False_run [T; F; T; F; F; F; F] 3.
Proof.
  split.
  - intros (r & Hr & H). vm_compute in Hr. injection Hr as <-.
    specialize (H 0 1).
    assert (Hrun : False_run [F; T] 0 1).
    { split; [lia |]. split; [vm_compute; discriminate |].
      split; [| split; [now left | right; reflexivity]].
      intros k Hk. replace k with 0 by lia. reflexivity. }
    specialize (H Hrun 0). vm_compute in H.
    assert (Hc : false = true) by (apply H; split; congruence).
    discriminate Hc.
  - intros (r & Hr & H). vm_compute in Hr. injection Hr as <-.
    specialize (H 3 7).
    assert (Hrun : False_run [T; F; T; F; F; F; F] 3 7).
    { split; [lia |]. split; [vm_compute; discriminate |].
      split; [| split; [right; reflexivity | now left]].
      intros k Hk.
      assert (Hc : k = 3 \/ k = 4 \/ k = 5 \/ k = 6) by lia.
      destruct Hc as [-> | [-> | [-> | ->]]]; reflexivity. }
    specialize (H Hrun 4). vm_compute in H.
    assert (Hc : false = true) by (apply H; split; congruence).
    discriminate Hc.
Qed.

(** C2, amended: for a delay [d >= 0] with [len a + d] below 2^63,
    [delay_true_spans] returns an array of the same length in which, for
    every False-run that begins after a True frame at a position [s] not
    reached by the window of an earlier such run, the frames
    [s .. min(s + d, len a) - 1] are True, hence the whole run when [d] is
    at least its length; the frames of a False-run that starts at index 0
    stay False; and with delay 0 the sequence is unchanged. *)
Theorem delay_true_spans_spec (a : list bool) (d : Z) :
  0 <= d -> len a + d < 2 ^ 63 ->
  exists r, delay_true_spans a d = ret r /\
    length r = length a /\
    (forall s, False_run_start a s ->
       (forall s', False_run_start a s' -> s' < s -> s' + d <= s) ->
       (forall i, s <= i < Z.min (s + d) (len a) -> zth r i = true) /\
       (forall e, False_run a s e -> e - s <= d ->
          forall i, s <= i < e -> zth r i = true)) /\
    (forall e, False_run a 0 e -> forall i, 0 <= i < e -> zth r i = false) /\
    (d = 0 -> r = a).
Proof.
  intros Hd Hn. rewrite delay_true_spans_eq.
  set (upto := fun s0 (_ : Z) => Z.min (add64 s0 d) (len a)).
  set (spans := combine (jumps_of a) (tl (jumps_of a ++ [len a]))).
  assert (Hin : forall s, In s spans -> 0 <= fst s < len a).
  { intros s Hs. now apply delay_spans_in_range. }
  destruct (gap_loop_mono upto spans a Hin) as (r & Hr & Hlen & Hmono).
  exists r. split; [exact Hr |]. split; [exact Hlen |].
  assert (Hwin : forall s, False_run_start a s ->
            (forall s', False_run_start a s' -> s' < s -> s' + d <= s) ->
            forall i, s <= i < Z.min (s + d) (len a) -> zth r i = true).
  { intros s (Hs & Hprev & Hfalse) Hfree i Hi.
    assert (Hj : In s (jumps_of a)).
    { apply In_jumps_of. split; [lia |]. rewrite Hprev, Hfalse.
      discriminate. }
    destruct (In_combine_next (jumps_of a) (len a) s Hj) as [q Hq].
    fold spans in Hq.
    apply (gap_loop_lower upto spans a r (s, q) i Hin Hr Hq Hfalse).
    - apply delay_window; cbn [fst]; lia.
    - lia.
    - intros s' Hs' Hf' Hw'. cbn [fst] in Hw'.
      destruct (delay_spans_in_range a s' Hs') as [Hj' Hr'].
      apply delay_window in Hw'; [| lia | lia | exact Hr'].
      apply delay_window; [lia | lia | exact Hr' |].
      destruct (Z.eq_dec (fst s') s) as [E | E]; [rewrite E; lia |].
      assert (Hst : False_run_start a (fst s')).
      { pose proof (jumps_of_bounds a _ Hj').
        split; [lia |]. split; [| exact Hf'].
        now apply jump_after_True. }
      specialize (Hfree (fst s') Hst). lia. }
  split; [| split].
  - intros s Hs Hfree. split; [now apply Hwin |].
    intros e (_ & He & _) Hed i Hi. apply (Hwin s Hs Hfree). lia.
  - intros e (He0 & He & Hf & _) i Hi. apply not_true_false. intros Ht.
    apply (gap_loop_upper upto spans a r i Hin Hr) in Ht; [| lia].
    destruct Ht as [Ht | (s & Hs & Hfs & Hw)].
    + rewrite Hf in Ht by lia. discriminate.
    + destruct (delay_spans_in_range a s Hs) as [Hj Hsr].
      pose proof (jumps_of_bounds a _ Hj) as Hb.
      pose proof (jump_after_True a _ Hj Hfs) as Hp.
      unfold window in Hw.
      rewrite Hf in Hp by lia. discriminate.
  - intros ->. symmetry. apply zth_ext; [now symmetry |].
    intros i Hi. destruct (zth a i) eqn:Ea.
    + symmetry. now apply Hmono.
    + symmetry. apply not_true_false. intros Ht.
      apply (gap_loop_upper upto spans a r i Hin Hr Hi) in Ht.
      destruct Ht as [Ht | (s & Hs & _ & Hw)]; [congruence |].
      apply delay_window in Hw; [lia | lia | lia | now apply Hin].
Qed.

Lemma delay_true_spans_spec_witness :
  exists r, delay_true_spans [T; F; F; F; T; F] 2 = ret r /\
    length r = length [T; F; F; F; T; F] /\
    (forall s, False_run_start [T; F; F; F; T; F] s ->
       (forall s', False_run_start [T; F; F; F; T; F] s' ->
                   s' < s -> s' + 2 <= s) ->
       (forall i, s <= i < Z.min (s + 2) (len [T; F; F; F; T; F]) ->
                  zth r i = true) /\
       (forall e, False_run [T; F; F; F; T; F] s e -> e - s <= 2 ->
          forall i, s <= i < e -> zth r i = true)) /\
    (forall e, False_run [T; F; F; F; T; F] 0 e ->
       forall i, 0 <= i < e -> zth r i = false) /\
    (2 = 0 -> r = [T; F; F; F; T; F]).
Proof.
  apply (delay_true_spans_spec [T; F; F; F; T; F] 2);
    [lia | vm_compute; reflexivity].
Defined.

(** ** int64 arithmetic *)

Lemma wrap64_add_l (x y : Z) : wrap64 (wrap64 x + y) = wrap64 (x + y).
Proof.
  unfold wrap64. f_equal.
  replace ((x + 2 ^ 63) mod 2 ^ 64 - 2 ^ 63 + y + 2 ^ 63)
    with ((x + 2 ^ 63) mod 2 ^ 64 + y) by lia.
  rewrite Z.add_mod_idemp_l by lia. f_equal. lia.
Qed.

Lemma wrap64_add_r (x y : Z) : wrap64 (x + wrap64 y) = wrap64 (x + y).
Proof. rewrite (Z.add_comm x), wrap64_add_l. f_equal. lia. Qed.

(** ** The accumulator *)

Lemma firstn_time_grid (F n : nat) :
  (n <= F)%nat -> firstn n (time_grid F) = time_grid n.
Proof.
  intros H. unfold time_grid. rewrite firstn_map. f_equal.
  replace F with (n + (F - n))%nat by lia.
  rewrite seq_app, firstn_app, length_seq.
  replace (n - n)%nat with 0%nat by lia.
  rewrite firstn_O, app_nil_r.
  rewrite firstn_all2; [reflexivity | rewrite length_seq; lia].
Qed.

Lemma add64_arrays_grid (f : Z -> Z) (n : nat) (acf : list Z) (k i : nat) :
  (n <= length acf)%nat ->
  nth i (add64_arrays (firstn n acf) (map f (map Z.of_nat (seq k n)))
           ++ skipn n acf) 0
  = if (i <? n)%nat then add64 (nth i acf 0) (f (Z.of_nat (k + i)))
    else nth i acf 0.
Proof.
  revert acf k i. induction n as [| n IH]; intros acf k i Hn.
  - reflexivity.
  - destruct acf as [| x acf]; [simpl in Hn; lia |].
    cbn [firstn seq map add64_arrays skipn app].
    destruct i as [| i].
    + cbn [nth]. now rewrite Nat.add_0_r.
    + cbn [nth]. rewrite IH by (simpl in Hn; lia).
      change (S i <? S n)%nat with (i <? n)%nat.
      now replace (S k + i)%nat with (k + S i)%nat by lia.
Qed.

Lemma add64_arrays_grid_length (f : Z -> Z) (n : nat) (acf : list Z)
    (k : nat) :
  (n <= length acf)%nat ->
  length (add64_arrays (firstn n acf) (map f (map Z.of_nat (seq k n)))
            ++ skipn n acf) = length acf.
Proof.
  revert acf k. induction n as [| n IH]; intros acf k Hn.
  - reflexivity.
  - destruct acf as [| x acf]; [simpl in Hn; lia |].
    cbn [firstn seq map add64_arrays skipn app length].
    now rewrite IH by (simpl in Hn; lia).
Qed.

(** One turn of the loop of [add_acf_from_span_lengths]. *)
Lemma iadd_span (F : nat) (acf : list Z) (L : Z) :
  length acf = F -> 0 <= L <= Z.of_nat F ->
  exists acf',
    iadd_slice_to acf L
      (map (fun ti => sub64 L ti) (slice_to (time_grid F) L)) = ret acf' /\
    length acf' = F /\
    forall i, 0 <= i < Z.of_nat F ->
      zth_int acf' i =
      if i <? L then wrap64 (zth_int acf i + (L - i)) else zth_int acf i.
Proof.
  intros Hlen HL.
  assert (Hg : length (time_grid F) = F).
  { unfold time_grid. now rewrite length_map, length_seq. }
  unfold iadd_slice_to, slice_to, slice_rest, len.
  rewrite Hlen, Hg, slice_bound_in_range by lia.
  rewrite firstn_time_grid by lia.
  rewrite length_map, firstn_length_le by lia.
  unfold time_grid at 1. rewrite length_map, length_seq, Z.eqb_refl.
  eexists. split; [reflexivity |]. split.
  - unfold time_grid. rewrite add64_arrays_grid_length; lia.
  - intros i Hi. unfold zth_int, time_grid.
    rewrite add64_arrays_grid by lia. cbn [Nat.add].
    unfold add64, sub64.
    destruct (Nat.ltb_spec (Z.to_nat i) (Z.to_nat L));
      destruct (Z.ltb_spec i L); try lia; try reflexivity.
    rewrite wrap64_add_r. f_equal. lia.
Qed.

Lemma wrap64_is_int64 (x : Z) : is_int64 (wrap64 x).
Proof.
  unfold is_int64, wrap64.
  pose proof (Z.mod_pos_bound (x + 2 ^ 63) (2 ^ 64)). lia.
Qed.

Lemma np_sum_map_perm (f : Z -> Z) (l l' : list Z) :
  Permutation l l' -> np_sum (map f l) = np_sum (map f l').
Proof.
  unfold np_sum.
  induction 1 as [| x l l' _ IH | x y l | l l' l'' _ IH1 _ IH2];
    cbn [map fold_right]; [reflexivity | lia | lia | congruence].
Qed.

(** What [add_acf_from_span_lengths] leaves in the buffer. *)
Lemma add_acf_from_span_lengths_entries (F : nat) (spans acf : list Z) :
  length acf = F ->
  (forall i, 0 <= i < Z.of_nat F -> is_int64 (zth_int acf i)) ->
  Forall (fun L => 0 <= L <= Z.of_nat F) spans ->
  exists r, add_acf_from_span_lengths (time_grid F) acf spans = ret r /\
    length r = F /\
    forall i, 0 <= i < Z.of_nat F ->
      zth_int r i = wrap64 (zth_int acf i + total_contribution i spans).
Proof.
  revert acf. induction spans as [| L rest IH]; intros acf Hlen Hint Hsp.
  - exists acf. split; [reflexivity |]. split; [exact Hlen |].
    intros i Hi. unfold total_contribution. cbn [map np_sum fold_right].
    rewrite Z.add_0_r. symmetry. apply wrap64_in_range. now apply Hint.
  - inversion Hsp as [| ? ? HL Hrest]; subst.
    destruct (iadd_span (length acf) acf L eq_refl HL)
      as (acf' & Hstep & Hlen' & Hacf').
    cbn [add_acf_from_span_lengths]. rewrite Hstep. cbn [bind ret].
    destruct (IH acf' Hlen') as (r & Hr & Hlr & Hri).
    + intros i Hi. rewrite Hacf' by exact Hi.
      destruct (i <? L); [apply wrap64_is_int64 | now apply Hint].
    + exact Hrest.
    + exists r. split; [exact Hr |]. split; [exact Hlr |].
      intros i Hi. rewrite Hri, Hacf' by exact Hi.
      unfold total_contribution, np_sum. cbn [map fold_right].
      unfold contribution at 2.
      destruct (i <? L).
      * rewrite wrap64_add_l. f_equal. lia.
      * f_equal.
Qed.

(** ** C4 *)

(** C4: on the time grid [0..F-1], with an int64 buffer of [F] entries and
    span lengths between 0 and [F], [add_acf_from_span_lengths] returns a
    buffer of [F] entries whose entry [i] is the initial entry plus, for
    every span length [L], [L - i] when [i < L] and nothing otherwise, in
    int64 arithmetic (exactly that sum whenever it fits in int64); the
    spans may be processed in any order. *)
Theorem add_acf_from_span_lengths_spec (F : nat) (acf span_lengths : list Z) :
  length acf = F ->
  Forall is_int64 acf ->
  Forall (fun L => 0 <= L <= Z.of_nat F) span_lengths ->
  exists r,
    add_acf_from_span_lengths (time_grid F) acf span_lengths = ret r /\
    length r = F /\
    (forall i, 0 <= i < Z.of_nat F ->
       zth_int r i
       = wrap64 (zth_int acf i + total_contribution i span_lengths) /\
       (is_int64 (zth_int acf i + total_contribution i span_lengths) ->
        zth_int r i = zth_int acf i + total_contribution i span_lengths)) /\
    (forall reordered, Permutation span_lengths reordered ->
       add_acf_from_span_lengths (time_grid F) acf reordered = ret r).
Proof.
  intros Hlen Hint Hsp.
  assert (Hint' : forall i, 0 <= i < Z.of_nat F -> is_int64 (zth_int acf i)).
  { intros i Hi. rewrite Forall_forall in Hint. apply Hint.
    unfold zth_int. apply nth_In. lia. }
  destruct (add_acf_from_span_lengths_entries F span_lengths acf
              Hlen Hint' Hsp) as (r & Hr & Hlr & Hri).
  exists r. split; [exact Hr |]. split; [exact Hlr |]. split.
  - intros i Hi. split; [now apply Hri |].
    intros Hfit. rewrite Hri by exact Hi. now apply wrap64_in_range.
  - intros reordered Hperm.
    assert (Hsp' : Forall (fun L => 0 <= L <= Z.of_nat F) reordered).
    { rewrite Forall_forall in *. intros L HL. apply Hsp.
      apply Permutation_sym in Hperm.
      now apply (Permutation_in _ Hperm). }
    destruct (add_acf_from_span_lengths_entries F reordered acf
                Hlen Hint' Hsp') as (r' & Hr' & Hlr' & Hri').
    rewrite Hr'. f_equal.
    apply (nth_ext r' r 0 0); [congruence |].
    intros n Hn.
    specialize (Hri (Z.of_nat n)). specialize (Hri' (Z.of_nat n)).
    unfold zth_int in Hri, Hri'. rewrite Nat2Z.id in Hri, Hri'.
    rewrite Hri, Hri' by lia.
    unfold total_contribution.
    now rewrite (np_sum_map_perm _ _ _ Hperm).
Qed.

Lemma add_acf_from_span_lengths_spec_witness :
  exists r,
    add_acf_from_span_lengths (time_grid 3) [0; 0; 0] [3; 1] = ret r /\
    r = [4; 2; 1].
Proof.
  destruct (add_acf_from_span_lengths_spec 3 [0; 0; 0] [3; 1]) as (r & Hr & _).
  - reflexivity.
  - repeat constructor; vm_compute; congruence.
  - repeat constructor; vm_compute; congruence.
  - exists r. split; [exact Hr |].
    vm_compute in Hr. now injection Hr as <-.
Defined.

(** ** The loop over the atoms of a block *)

Lemma In_le_np_sum (l : list Z) (x : Z) :
  Forall (fun d => 0 <= d) l -> In x l -> x <= np_sum l.
Proof.
  induction 1 as [| y l Hy Hl IH]; intros Hin; [contradiction |].
  pose proof (np_sum_nonneg l Hl) as Hs. unfold np_sum in *.
  cbn [fold_right]. destruct Hin as [-> | Hin]; [lia |].
  specialize (IH Hin). lia.
Qed.

Lemma np_sum_span_diffs_le (a : list bool) (outer : bool) :
  a <> [] -> np_sum (np_diff (span_indices a outer)) <= len a.
Proof.
  intros Ha. destruct outer; [rewrite np_sum_outer_diffs; lia |].
  unfold span_indices. destruct (jumps_of a) as [| j l] eqn:E.
  - simpl. apply len_nonneg.
  - rewrite np_sum_np_diff.
    pose proof (last_jump_below a j l E).
    pose proof (jumps_of_bounds a j). rewrite E in H0.
    specialize (H0 (or_introl eq_refl)). lia.
Qed.

(** Every reported span length is at most the length of the array. *)
Lemma get_lengths_of_True_spans_bounded (a : list bool) (outer : bool)
    (spans : list Z) :
  get_lengths_of_True_spans a outer = ret spans ->
  Forall (fun L => 0 <= L <= len a) spans.
Proof.
  intros H. pose proof (get_lengths_of_True_spans_pos a outer spans H) as Hp.
  destruct a as [| x a]; [destruct outer; discriminate H |].
  rewrite get_lengths_of_True_spans_eq in H by discriminate.
  injection H as <-.
  destruct (span_indices (x :: a) outer) as [| i0 ir] eqn:E; [constructor |].
  rewrite Forall_forall in *. intros L HL. split.
  - specialize (Hp L HL). lia.
  - etransitivity; [| apply (np_sum_span_diffs_le (x :: a) outer)];
      [| discriminate].
    rewrite E. apply In_le_np_sum.
    + apply Forall_pos_nonneg, np_diff_sorted_pos. rewrite <- E.
      apply span_indices_sorted. discriminate.
    + unfold slice_from_step2 in HL.
      now apply step2_incl, skipn_incl in HL.
Qed.

Lemma np_sum_pos (l : list Z) :
  Forall (fun d => 0 < d) l -> l <> [] -> 0 < np_sum l.
Proof.
  intros H Hne. destruct l as [| x l]; [contradiction |].
  inversion H as [| ? ? Hx Hl]; subst.
  pose proof (np_sum_nonneg l (Forall_pos_nonneg l Hl)).
  unfold np_sum in *. cbn [fold_right]. lia.
Qed.

Lemma selection_of_length (table : list (list Z)) (atom : Z) :
  length (selection_of table atom) = length table.
Proof. unfold selection_of. apply length_map. Qed.

(** The gap policy chosen by [max_False_span] and [delay] returns an array
    of the same length. *)
Lemma gap_policy_total (selected : list bool) (max_False_span : Z)
    (delay : bool) :
  exists r,
    (if 0 <? max_False_span then
       if delay then delay_true_spans selected max_False_span
       else remove_small_False_spans selected max_False_span
     else ret selected) = ret r /\
    length r = length selected.
Proof.
  destruct (0 <? max_False_span).
  - destruct delay.
    + destruct (delay_true_spans_mono selected max_False_span)
        as (r & Hr & Hl & _). now exists r.
    + destruct (remove_small_False_spans_mono selected max_False_span)
        as (r & Hr & Hl & _). now exists r.
  - now exists selected.
Qed.

(** The loop returns; the counter never decreases, and when it has not
    moved the buffer has not either. *)
Lemma atoms_loop_total (table : list (list Z)) (max_False_span : Z)
    (outer_spans delay : bool) (atoms acf : list Z) (norm : Z) :
  table <> [] -> length acf = length table ->
  (forall i, 0 <= i < len table -> is_int64 (zth_int acf i)) ->
  exists acf' norm',
    atoms_loop (time_grid (length table)) table max_False_span outer_spans
      delay atoms acf norm = ret (acf', norm') /\
    length acf' = length table /\
    norm <= norm' /\
    (norm' = norm -> acf' = acf).
Proof.
  intros Ht. revert acf norm.
  induction atoms as [| atom rest IH]; intros acf norm Hlen Hint.
  - exists acf, norm. repeat split; auto; lia.
  - cbn [atoms_loop].
    destruct (gap_policy_total (selection_of table atom) max_False_span delay)
      as (sel & Hsel & Hsl).
    rewrite Hsel. cbn [bind ret].
    rewrite selection_of_length in Hsl.
    assert (Hne : sel <> []).
    { destruct sel; [| discriminate]. destruct table; [contradiction |].
      discriminate Hsl. }
    pose proof (get_lengths_of_True_spans_eq sel outer_spans Hne) as Hg.
    set (spans := match span_indices sel outer_spans with
                  | [] => []
                  | i0 :: _ => _
                  end) in Hg.
    rewrite Hg. cbn [bind ret].
    pose proof (get_lengths_of_True_spans_pos _ _ _ Hg) as Hpos.
    pose proof (get_lengths_of_True_spans_bounded _ _ _ Hg) as Hbd.
    unfold len in Hbd. rewrite Hsl in Hbd.
    destruct (add_acf_from_span_lengths_entries (length table) spans acf
                Hlen Hint Hbd) as (acf1 & Hacf1 & Hl1 & He1).
    rewrite Hacf1. cbn [bind ret].
    destruct (IH acf1 (norm + np_sum spans) Hl1)
      as (acf' & norm' & Hloop & Hl' & Hle & Hsame).
    { intros i Hi. rewrite He1 by exact Hi. apply wrap64_is_int64. }
    exists acf', norm'. split; [exact Hloop |]. split; [exact Hl' |].
    pose proof (np_sum_nonneg spans (Forall_pos_nonneg _ Hpos)) as Hnn.
    split; [lia |].
    intros Heq. destruct spans as [| L spans'] eqn:Es.
    + cbn in Hacf1. injection Hacf1 as <-. apply Hsame.
      change (np_sum []) with 0. lia.
    + pose proof (np_sum_pos (L :: spans') Hpos).
      assert (0 < np_sum (L :: spans')) by (apply H; discriminate). lia.
Qed.

(** ** Blocks *)

Lemma zeros_int64 (t : list Z) (i : Z) :
  is_int64 (zth_int (map (fun _ => 0) t) i).
Proof.
  unfold zth_int.
  destruct (nth_in_or_default (Z.to_nat i) (map (fun _ : Z => 0) t) 0)
    as [H | ->].
  - apply in_map_iff in H. destruct H as [_ [<- _]]. unfold is_int64. lia.
  - unfold is_int64. lia.
Qed.

Lemma time_grid_length (F : nat) : length (time_grid F) = F.
Proof. unfold time_grid. now rewrite length_map, length_seq. Qed.

Lemma normalize_length (acf : list Z) (norm : Z) :
  length (normalize acf norm) = length acf.
Proof. unfold normalize. apply length_map. Qed.

(** Dividing the untouched buffer by a zero counter gives NaN throughout. *)
Lemma normalize_zeros (t : list Z) :
  normalize (map (fun _ => 0) t) 0 = map (fun _ => nan) t.
Proof.
  unfold normalize. rewrite map_map. apply map_ext. intros _. reflexivity.
Qed.

(** A block's computation returns a row as long as the time grid. *)
Lemma block_acf_total (table : list (list Z)) (max_False_span : Z)
    (outer_spans delay : bool) (atoms : list Z) (n_blocks block : nat) :
  table <> [] -> n_blocks <> 0%nat ->
  exists row,
    block_acf (time_grid (length table)) table max_False_span outer_spans
      delay atoms n_blocks block = ret row /\
    length row = length table.
Proof.
  intros Ht Hn. unfold block_acf, slice_from_step.
  destruct (Nat.eqb_spec n_blocks 0) as [E | _]; [contradiction |].
  cbn [bind ret].
  destruct (atoms_loop_total table max_False_span outer_spans delay
              (stride_from block n_blocks atoms)
              (map (fun _ => 0) (time_grid (length table))) 0 Ht)
    as (acf & norm & Hloop & Hlen & _).
  - now rewrite length_map, time_grid_length.
  - intros i _. apply zeros_int64.
  - rewrite Hloop. cbn [bind ret fst snd]. eexists. split; [reflexivity |].
    now rewrite normalize_length.
Qed.

Lemma blocks_loop_total (table : list (list Z)) (max_False_span : Z)
    (outer_spans delay : bool) (atoms : list Z) (n_blocks : nat)
    (blocks : list nat) :
  table <> [] -> n_blocks <> 0%nat \/ blocks = [] ->
  exists rows,
    blocks_loop (time_grid (length table)) table max_False_span outer_spans
      delay atoms n_blocks blocks = ret rows /\
    length rows = length blocks /\
    Forall (fun row => length row = length table) rows /\
    forall k, (k < length blocks)%nat ->
      block_acf (time_grid (length table)) table max_False_span outer_spans
        delay atoms n_blocks (nth k blocks 0%nat) = ret (nth k rows []).
Proof.
  intros Ht Hn. induction blocks as [| block rest IH].
  - exists []. repeat split; auto. simpl. lia.
  - destruct Hn as [Hn | Hn]; [| discriminate Hn].
    cbn [blocks_loop].
    destruct (block_acf_total table max_False_span outer_spans delay atoms
                n_blocks block Ht Hn) as (row & Hrow & Hl).
    rewrite Hrow. cbn [bind ret].
    destruct (IH (or_introl Hn)) as (rows & Hrows & Hlr & Hall & Hk).
    rewrite Hrows. cbn [bind ret].
    exists (row :: rows). split; [reflexivity |].
    split; [simpl; now rewrite Hlr |]. split; [now constructor |].
    intros [| k] Hlt; [exact Hrow |].
    cbn [nth]. apply Hk. simpl in Hlt. lia.
Qed.

(** ** Reductions along the block axis *)

Lemma zip_float_length (f : float -> float -> float) (a b : list float) :
  length a = length b -> length (zip_float f a b) = length a.
Proof.
  revert b. induction a as [| x a IH]; intros [| y b] H;
    try discriminate; [reflexivity |].
  simpl. f_equal. apply IH. now injection H.
Qed.

Lemma nth_zip_float (f : float -> float -> float) (a b : list float)
    (j : nat) (d : float) :
  length a = length b -> (j < length a)%nat ->
  nth j (zip_float f a b) d = f (nth j a d) (nth j b d).
Proof.
  revert b j. induction a as [| x a IH]; intros [| y b] j H Hj;
    try discriminate; [simpl in Hj; lia |].
  destruct j as [| j]; [reflexivity |].
  simpl. apply IH; [now injection H | simpl in Hj; lia].
Qed.

(** Adding rows onto a start row adds, in each column, the column's
    entries onto the start entry, in the order of the rows. *)
Lemma nth_fold_rows (f : float -> float -> float) (w : nat)
    (rows : list (list float)) (init : list float) (j : nat) (d : float) :
  Forall (fun row => length row = w) rows -> length init = w ->
  (j < w)%nat ->
  length (fold_left (zip_float f) rows init) = w /\
  nth j (fold_left (zip_float f) rows init) d
  = fold_left f (map (fun row => nth j row d) rows) (nth j init d).
Proof.
  intros Hrows. revert init.
  induction Hrows as [| row rows Hrow _ IH]; intros init Hinit Hj.
  - split; [exact Hinit | reflexivity].
  - cbn [fold_left map].
    destruct (IH (zip_float f init row)) as [Hl Hn].
    + rewrite zip_float_length; congruence.
    + exact Hj.
    + split; [exact Hl |]. rewrite Hn. f_equal.
      apply nth_zip_float; [congruence | lia].
Qed.

Lemma nth_repeat_zero (w j : nat) : nth j (repeat 0%float w) 0%float = 0%float.
Proof.
  destruct (nth_in_or_default j (repeat 0%float w) 0%float) as [H | H].
  - now apply repeat_spec in H.
  - exact H.
Qed.

Lemma nth_sum_axis0 (w : nat) (rows : list (list float)) (j : nat) :
  Forall (fun row => length row = w) rows -> (j < w)%nat ->
  length (sum_axis0 w rows) = w /\
  nth j (sum_axis0 w rows) 0%float
  = fold_left PrimFloat.add (map (fun row => nth j row 0%float) rows)
      0%float.
Proof.
  intros Hrows Hj. unfold sum_axis0.
  destruct (nth_fold_rows PrimFloat.add w rows (repeat 0%float w) j 0%float
              Hrows (repeat_length _ _) Hj) as [Hl Hn].
  split; [exact Hl |]. now rewrite Hn, nth_repeat_zero.
Qed.

Lemma nth_map_float (g : float -> float) (l : list float) (j : nat) :
  (j < length l)%nat ->
  nth j (map g l) 0%float = g (nth j l 0%float).
Proof.
  intros Hj. rewrite (nth_indep _ 0%float (g 0%float)).
  - apply map_nth.
  - now rewrite length_map.
Qed.

(** Mean and standard deviation, column by column. *)
Lemma np_stats_columns (w : nat) (rows : list (list float)) (j : nat) :
  Forall (fun row => length row = w) rows -> (j < w)%nat ->
  let col := map (fun row => nth j row 0%float) rows in
  let n := float_of_int64 (len rows) in
  let mean := PrimFloat.div (fold_left PrimFloat.add col 0%float) n in
  nth j (np_mean_axis0 w rows) 0%float = mean /\
  nth j (np_std_axis0 0 w rows) 0%float
  = PrimFloat.sqrt
      (PrimFloat.div
         (fold_left PrimFloat.add
            (map (fun x => PrimFloat.mul (PrimFloat.sub x mean)
                             (PrimFloat.sub x mean)) col) 0%float) n).
Proof.
  intros Hrows Hj col n mean.
  destruct (nth_sum_axis0 w rows j Hrows Hj) as [Hl Hs].
  assert (Hmean : nth j (np_mean_axis0 w rows) 0%float = mean).
  { unfold np_mean_axis0. rewrite nth_map_float by lia. now rewrite Hs. }
  assert (Hml : length (np_mean_axis0 w rows) = w).
  { unfold np_mean_axis0. now rewrite length_map. }
  split; [exact Hmean |].
  unfold np_std_axis0.
  set (x := map (map (fun d => PrimFloat.mul d d))
              (map (fun row => zip_float PrimFloat.sub row
                                 (np_mean_axis0 w rows)) rows)).
  assert (Hx : Forall (fun row => length row = w) x).
  { unfold x. rewrite Forall_forall in *. intros row Hin.
    apply in_map_iff in Hin. destruct Hin as (row1 & <- & Hin).
    apply in_map_iff in Hin. destruct Hin as (row0 & <- & Hin).
    rewrite length_map, zip_float_length; rewrite (Hrows row0 Hin); auto. }
  destruct (nth_sum_axis0 w x j Hx Hj) as [Hlx Hsx].
  rewrite nth_map_float by lia. rewrite Hsx.
  replace (Z.max (len rows - 0) 0) with (len rows)
    by (pose proof (len_nonneg rows); lia).
  fold n. f_equal. f_equal. f_equal.
  unfold x, col. rewrite !map_map. apply map_ext_in. intros row Hin.
  rewrite Forall_forall in Hrows. specialize (Hrows row Hin).
  rewrite nth_map_float by (rewrite zip_float_length; lia).
  rewrite nth_zip_float by lia. now rewrite Hmean.
Qed.

(** On a table with at least one frame the computation returns. *)
Lemma calc_acf_from_select_data_total (table : list (list Z))
    (atoms : list Z) (dt : float) (max_False_span : Z) (n_blocks : nat)
    (outer_spans delay : bool) :
  table <> [] ->
  exists acf_blocks,
    blocks_loop (time_grid (length table)) table max_False_span outer_spans
      delay atoms n_blocks (seq 0 n_blocks) = ret acf_blocks /\
    length acf_blocks = n_blocks /\
    Forall (fun row => length row = length table) acf_blocks /\
    (forall k, (k < n_blocks)%nat ->
       block_acf (time_grid (length table)) table max_False_span outer_spans
         delay atoms n_blocks k = ret (nth k acf_blocks [])) /\
    calc_acf_from_select_data table atoms dt max_False_span n_blocks
      outer_spans delay
    = ret (map (fun i => PrimFloat.mul (float_of_int64 i) dt)
             (time_grid (length table)),
           np_mean_axis0 (length table) acf_blocks,
           np_std_axis0 0 (length table) acf_blocks).
Proof.
  intros Ht.
  destruct (blocks_loop_total table max_False_span outer_spans delay atoms
              n_blocks (seq 0 n_blocks) Ht)
    as (rows & Hrows & Hlen & Hall & Hk).
  { destruct n_blocks; [now right | now left]. }
  rewrite length_seq in Hlen, Hk.
  exists rows. split; [exact Hrows |]. split; [exact Hlen |].
  split; [exact Hall |]. split.
  - intros k Hlt. specialize (Hk k Hlt).
    now rewrite seq_nth in Hk by exact Hlt.
  - unfold calc_acf_from_select_data. fold (time_grid (length table)).
    rewrite Hrows. cbn [bind ret]. now rewrite time_grid_length.
Qed.

(** ** C8 *)

(** The standard deviation of 1 and 3 is 1 with divisor 2; with divisor 1
    it would be the square root of 2. *)
Example np_std_axis0_divisor :
  np_std_axis0 0 1 [[1%float]; [3%float]] = [1%float] /\
  np_mean_axis0 1 [[1%float]; [3%float]] = [2%float].
Proof. split; reflexivity. Qed.

(** C8: on a table with at least one frame the computation returns; the
    mean it returns is, at every position, the sum of the [n_blocks]
    per-block ACF entries divided by [n_blocks], and the standard deviation
    is the square root of the sum of the squared deviations from that mean
    divided by [n_blocks]. *)
Theorem calc_acf_block_statistics (table : list (list Z)) (atoms : list Z)
    (dt : float) (max_False_span : Z) (n_blocks : nat)
    (outer_spans delay : bool) :
  table <> [] ->
  exists acf_blocks t acf_mean acf_std,
    calc_acf_from_select_data table atoms dt max_False_span n_blocks
      outer_spans delay = ret (t, acf_mean, acf_std) /\
    length acf_blocks = n_blocks /\
    (forall k, (k < n_blocks)%nat ->
       block_acf (time_grid (length table)) table max_False_span outer_spans
         delay atoms n_blocks k = ret (nth k acf_blocks [])) /\
    forall j, (j < length table)%nat ->
      let col := map (fun row => nth j row 0%float) acf_blocks in
      let n := float_of_int64 (Z.of_nat n_blocks) in
      let mean := PrimFloat.div (fold_left PrimFloat.add col 0%float) n in
      nth j acf_mean 0%float = mean /\
      nth j acf_std 0%float
      = PrimFloat.sqrt
          (PrimFloat.div
             (fold_left PrimFloat.add
                (map (fun x => PrimFloat.mul (PrimFloat.sub x mean)
                                 (PrimFloat.sub x mean)) col) 0%float) n).
Proof.
  intros Ht.
  destruct (calc_acf_from_select_data_total table atoms dt max_False_span
              n_blocks outer_spans delay Ht)
    as (rows & _ & Hlen & Hall & Hk & Hcalc).
  exists rows. eexists. eexists. eexists.
  split; [exact Hcalc |]. split; [exact Hlen |]. split; [exact Hk |].
  intros j Hj. rewrite <- Hlen.
  apply (np_stats_columns (length table) rows j Hall Hj).
Qed.

Lemma calc_acf_block_statistics_witness :
  exists (acf_blocks : list (list float)) t acf_mean acf_std,
    calc_acf_from_select_data [[1; 2]; [1; 2]; [1]] [1; 2] 1%float 0 2
      true false = ret (t, acf_mean, acf_std) /\
    length acf_blocks = 2%nat.
Proof.
  destruct (calc_acf_block_statistics [[1; 2]; [1; 2]; [1]] [1; 2] 1%float
              0 2 true false) as (b & t & m & s & H & Hl & _).
  - discriminate.
  - exists b, t, m, s. split; [exact H | exact Hl].
Defined.

(** ** C1 *)

(** C1, as stated, fails: with one atom and two blocks the second block has
    no atom, its counter stays zero, and the computation returns NaN in
    every entry; with the default [outer_spans] an atom selected in every
    frame has no counted span, and the result is NaN as well.  Neither run
    raises. *)
Lemma calc_acf_zero_norm_returns_nan :
  calc_acf_from_select_data [[1]; [1]; [1]] [1] 1%float 0 2 true false
  = ret ([0%float; 1%float; 2%float], [nan; nan; nan], [nan; nan; nan]) /\
  calc_acf_from_select_data [[1]; [1]; [1]] [1] 1%float 0 1 false false
  = ret ([0%float; 1%float; 2%float], [nan; nan; nan], [nan; nan; nan]).
Proof. split; vm_compute; reflexivity. Qed.

(** C1, amended: on a table with at least one frame the computation raises
    nothing, and a block whose normalization counter is zero gets NaN in
    every entry of its ACF. *)
Theorem zero_norm_block_is_nan (table : list (list Z)) (atoms : list Z)
    (dt : float) (max_False_span : Z) (n_blocks block : nat)
    (outer_spans delay : bool) (block_atoms acf : list Z) :
  table <> [] ->
  slice_from_step atoms block n_blocks = ret block_atoms ->
  atoms_loop (time_grid (length table)) table max_False_span outer_spans
    delay block_atoms (map (fun _ => 0) (time_grid (length table))) 0
  = ret (acf, 0) ->
  block_acf (time_grid (length table)) table max_False_span outer_spans
    delay atoms n_blocks block
  = ret (map (fun _ => nan) (time_grid (length table))) /\
  exists result,
    calc_acf_from_select_data table atoms dt max_False_span n_blocks
      outer_spans delay = ret result.
Proof.
  intros Ht Hslice Hloop. split.
  - unfold block_acf. rewrite Hslice. cbn [bind ret].
    destruct (atoms_loop_total table max_False_span outer_spans delay
                block_atoms (map (fun _ => 0) (time_grid (length table))) 0
                Ht)
      as (acf' & norm' & Hloop' & _ & _ & Hsame).
    + now rewrite length_map, time_grid_length.
    + intros i _. apply zeros_int64.
    + rewrite Hloop in Hloop'. injection Hloop' as <- <-.
      rewrite Hloop. cbn [bind ret fst snd].
      rewrite (Hsame eq_refl). now rewrite normalize_zeros.
  - destruct (calc_acf_from_select_data_total table atoms dt max_False_span
                n_blocks outer_spans delay Ht) as (rows & _ & _ & _ & _ & H).
    eexists. exact H.
Qed.

Lemma zero_norm_block_is_nan_witness :
  block_acf (time_grid 3) [[1]; [1]; [1]] 0 false false [1] 1 0
  = ret [nan; nan; nan].
Proof.
  apply (zero_norm_block_is_nan [[1]; [1]; [1]] [1] 1%float 0 1 0 false false
           [1] [0; 0; 0]).
  - discriminate.
  - reflexivity.
  - reflexivity.
Defined.

(** * Further properties *)

(** ** Span extraction and the runs of the sequence *)

Lemma runs_of_step (x : bool) (r : list bool) :
  runs_of (x :: r) =
  match runs_of r with
  | [] => [(x, 1)]
  | (b, k) :: rest =>
      if Bool.eqb x b then (b, k + 1) :: rest else (x, 1) :: (b, k) :: rest
  end.
Proof. reflexivity. Qed.

Lemma runs_of_cons (x : bool) (r : list bool) :
  exists k rest, runs_of (x :: r) = (x, k) :: rest /\ 1 <= k /\
                 alternating (negb x) rest.
Proof.
  revert x. induction r as [| y r IH]; intros x.
  - exists 1, []. repeat split. lia.
  - destruct (IH y) as (k & rest & Hr & Hk & Halt).
    rewrite runs_of_step, Hr.
    destruct (Bool.eqb x y) eqn:E.
    + apply Bool.eqb_prop in E. subst y.
      exists (k + 1), rest. repeat split; [lia | exact Halt].
    + exists 1, ((y, k) :: rest). split; [reflexivity |]. split; [lia |].
      cbn [alternating]. split; [now destruct x, y |].
      replace (negb (negb x)) with (negb y) by now destruct x, y.
      exact Halt.
Qed.

Lemma np_diff_map_succ (l : list Z) :
  np_diff (map (fun i => i + 1) l) = np_diff l.
Proof.
  induction l as [| x l IH]; [reflexivity |].
  destruct l as [| y r]; [reflexivity |].
  change (map (fun i => i + 1) (x :: y :: r))
    with ((x + 1) :: map (fun i => i + 1) (y :: r)).
  change (map (fun i => i + 1) (y :: r))
    with ((y + 1) :: map (fun i => i + 1) r) in *.
  change (np_diff ((x + 1) :: (y + 1) :: map (fun i => i + 1) r))
    with ((y + 1 - (x + 1))
            :: np_diff ((y + 1) :: map (fun i => i + 1) r)).
  rewrite IH. change (np_diff (x :: y :: r)) with ((y - x) :: np_diff (y :: r)).
  f_equal. lia.
Qed.

(** The differences of the index array with the outer borders are the
    lengths of the runs. *)
Lemma np_diff_outer_runs (a : list bool) :
  a <> [] -> np_diff (span_indices a true) = map snd (runs_of a).
Proof.
  induction a as [| x a IH]; intros Hne; [contradiction |].
  destruct a as [| y r]; [reflexivity |].
  specialize (IH ltac:(discriminate)).
  destruct (runs_of_cons y r) as (k & rest & Hr & _ & _).
  unfold span_indices in *. rewrite jumps_of_cons.
  rewrite (len_cons x (y :: r)).
  rewrite (runs_of_step x (y :: r)), Hr. rewrite Hr in IH.
  cbn [map snd] in IH.
  replace (Bool.eqb x y) with (negb (xorb y x)) by now destruct x, y.
  destruct (xorb y x); cbn [negb app].
  - (* a jump at 1: a new run of one frame *)
    replace (1 :: map (fun i => i + 1) (jumps_of (y :: r))
               ++ [len (y :: r) + 1])
      with (map (fun i => i + 1) ([0] ++ jumps_of (y :: r) ++ [len (y :: r)]))
      by (now rewrite !map_app).
    change (np_diff (0 :: map (fun i => i + 1)
                            ([0] ++ jumps_of (y :: r) ++ [len (y :: r)])))
      with ((0 + 1 - 0)
              :: np_diff (map (fun i => i + 1)
                            ([0] ++ jumps_of (y :: r) ++ [len (y :: r)]))).
    rewrite np_diff_map_succ, IH. reflexivity.
  - (* no jump at 1: the first run grows by one frame *)
    replace (map (fun i => i + 1) (jumps_of (y :: r)) ++ [len (y :: r) + 1])
      with (map (fun i => i + 1) (jumps_of (y :: r) ++ [len (y :: r)]))
      by (now rewrite map_app).
    cbn [app] in IH.
    destruct (jumps_of (y :: r) ++ [len (y :: r)]) as [| t0 tr] eqn:Et.
    + destruct (jumps_of (y :: r)); discriminate Et.
    + change (np_diff (0 :: t0 :: tr))
        with ((t0 - 0) :: np_diff (t0 :: tr)) in IH.
      assert (Hk : t0 - 0 = k) by congruence.
      assert (Hrest : np_diff (t0 :: tr) = map snd rest) by congruence.
      change (np_diff (0 :: map (fun i => i + 1) (t0 :: tr)))
        with ((t0 + 1 - 0) :: np_diff (map (fun i => i + 1) (t0 :: tr))).
      rewrite np_diff_map_succ, Hrest. cbn [map snd]. f_equal. lia.
Qed.

(** In an alternating list every second length, from the first True run
    on, is the length of a True run. *)
Lemma True_run_lengths_alternating (b : bool) (rs : list (bool * Z)) :
  alternating b rs ->
  True_run_lengths rs
  = slice_from_step2 (map snd rs) (int_of_bool (negb b)).
Proof.
  unfold True_run_lengths, slice_from_step2.
  revert b. induction rs as [| [c k] rest IH]; intros b Halt.
  - now destruct b.
  - destruct Halt as [-> Halt]. specialize (IH _ Halt).
    cbn [filter fst map snd]. destruct b; cbn [negb int_of_bool skipn] in *.
    + rewrite step2_cons. cbn [map snd]. now rewrite IH.
    + exact IH.
Qed.

Lemma zth_0_cons (x : bool) (r : list bool) : zth (x :: r) 0 = x.
Proof. reflexivity. Qed.

Lemma get_lengths_outer_runs (a : list bool) :
  a <> [] ->
  get_lengths_of_True_spans a true = ret (True_run_lengths (runs_of a)).
Proof.
  intros Hne. rewrite get_lengths_of_True_spans_eq by exact Hne.
  rewrite (np_diff_outer_runs a Hne).
  destruct a as [| x r]; [contradiction |].
  destruct (runs_of_cons x r) as (k & rest & Hr & _ & Halt).
  change (span_indices (x :: r) true)
    with (0 :: jumps_of (x :: r) ++ [len (x :: r)]).
  cbv iota. rewrite zth_0_cons. f_equal. symmetry.
  apply True_run_lengths_alternating.
  rewrite Hr. cbn [alternating]. now split.
Qed.

(** X1: with [outer_spans] the function returns, on a non-empty sequence,
    the lengths of the maximal True runs in the order they occur. *)
Theorem get_lengths_outer_is_True_runs (bool_array : list bool) :
  bool_array <> [] ->
  get_lengths_of_True_spans bool_array true
  = ret (True_run_lengths (runs_of bool_array)).
Proof.
  intros Hne. destruct bool_array as [| x r]; [contradiction |].
  apply get_lengths_outer_runs. discriminate.
Qed.

Lemma get_lengths_outer_is_True_runs_witness :
  get_lengths_of_True_spans [T; T; F; T; F; F; T] true = ret [2; 1; 1].
Proof.
  apply (get_lengths_outer_is_True_runs [T; T; F; T; F; F; T]). discriminate.
Defined.

Lemma map_removelast {A B : Type} (f : A -> B) (l : list A) :
  map f (removelast l) = removelast (map f l).
Proof.
  induction l as [| x l IH]; [reflexivity |].
  destruct l as [| y r]; [reflexivity |].
  change (removelast (x :: y :: r)) with (x :: removelast (y :: r)).
  change (map f (x :: removelast (y :: r)))
    with (f x :: map f (removelast (y :: r))).
  rewrite IH. reflexivity.
Qed.

Lemma alternating_removelast (b : bool) (rs : list (bool * Z)) :
  alternating b rs -> alternating b (removelast rs).
Proof.
  revert b. induction rs as [| [c k] rest IH]; intros b H; [exact I |].
  destruct rest as [| s rest']; [exact I |].
  destruct H as [Hc H].
  change (removelast ((c, k) :: s :: rest'))
    with ((c, k) :: removelast (s :: rest')).
  split; [exact Hc | now apply IH].
Qed.

(** X2: without [outer_spans] the function returns, on a non-empty
    sequence, the lengths of the maximal True runs that touch neither end
    of the sequence, in the order they occur: the first and the last run
    are left out whatever their value. *)
Theorem get_lengths_inner_is_interior_True_runs (bool_array : list bool) :
  bool_array <> [] ->
  get_lengths_of_True_spans bool_array false
  = ret (True_run_lengths (removelast (tl (runs_of bool_array)))).
Proof.
  intros Hne. rewrite get_lengths_of_True_spans_eq by exact Hne.
  pose proof (np_diff_outer_runs bool_array Hne) as Hd.
  destruct bool_array as [| x r]; [contradiction |].
  destruct (runs_of_cons x r) as (k & rest & Hr & _ & Halt).
  rewrite Hr in *. cbn [tl map snd] in *.
  change (span_indices (x :: r) false) with (jumps_of (x :: r)).
  change (span_indices (x :: r) true)
    with (0 :: jumps_of (x :: r) ++ [len (x :: r)]) in Hd.
  destruct (jumps_of (x :: r)) as [| j0 js] eqn:Ej.
  - cbn in Hd. assert (Hrest : map snd rest = []) by congruence.
    destruct rest; [reflexivity | discriminate Hrest].
  - rewrite (first_jump_flips (x :: r) j0 js Ej), zth_0_cons.
    change (np_diff (0 :: (j0 :: js) ++ [len (x :: r)]))
      with ((j0 - 0) :: np_diff ((j0 :: js) ++ [len (x :: r)])) in Hd.
    rewrite np_diff_snoc in Hd.
    assert (Hrest : np_diff (j0 :: js) ++ [len (x :: r) - last (j0 :: js) j0]
                    = map snd rest) by congruence.
    apply (f_equal (@removelast Z)) in Hrest.
    rewrite removelast_last, <- map_removelast in Hrest.
    rewrite Hrest. f_equal. symmetry.
    apply True_run_lengths_alternating.
    now apply alternating_removelast.
Qed.

Lemma get_lengths_inner_is_interior_True_runs_witness :
  get_lengths_of_True_spans [T; T; F; T; F; F; T] false = ret [1].
Proof.
  apply (get_lengths_inner_is_interior_True_runs [T; T; F; T; F; F; T]).
  discriminate.
Defined.

Lemma count_True_cons (x : bool) (r : list bool) :
  count_True (x :: r) = (if x then 1 else 0) + count_True r.
Proof.
  unfold count_True. cbn [filter]. destruct x; [rewrite len_cons |]; lia.
Qed.

Lemma np_sum_True_run_lengths (a : list bool) :
  np_sum (True_run_lengths (runs_of a)) = count_True a.
Proof.
  induction a as [| x r IH]; [reflexivity |].
  rewrite count_True_cons, <- IH, runs_of_step.
  destruct r as [| y r'].
  - destruct x; reflexivity.
  - destruct (runs_of_cons y r') as (k & rest & Hr & _ & _). rewrite Hr.
    unfold True_run_lengths, np_sum.
    destruct x, y; cbn [Bool.eqb filter fst map snd fold_right]; lia.
Qed.

(** X3: with [outer_spans] the span lengths of a non-empty sequence add up
    to its number of True frames. *)
Theorem get_lengths_outer_sum_is_count_True (bool_array : list bool) :
  bool_array <> [] ->
  exists span_lengths,
    get_lengths_of_True_spans bool_array true = ret span_lengths /\
    np_sum span_lengths = count_True bool_array.
Proof.
  intros Hne. exists (True_run_lengths (runs_of bool_array)). split.
  - now apply get_lengths_outer_runs.
  - apply np_sum_True_run_lengths.
Qed.

Lemma get_lengths_outer_sum_is_count_True_witness :
  exists span_lengths,
    get_lengths_of_True_spans [T; F; T; T] true = ret span_lengths /\
    np_sum span_lengths = count_True [T; F; T; T].
Proof.
  apply (get_lengths_outer_sum_is_count_True [T; F; T; T]). discriminate.
Defined.

(** ** The gap policies *)

(** A small gap of the filled array would be a small gap of the input,
    and so would have been filled. *)
Lemma filled_has_no_small_gap (a r : list bool) (m : Z) :
  length r = length a ->
  (forall i, 0 <= i < len a ->
     (zth r i = true <-> zth a i = true \/ in_small_gap a m i)) ->
  forall i, ~ in_small_gap r m i.
Proof.
  intros Hlen Hfr i (s & e & Hrun & Hs & He & Hm & Hse).
  assert (Hl : len r = len a) by (unfold len; now rewrite Hlen).
  destruct Hrun as (Hlt & Hel & Hf & Hleft & Hright). rewrite Hl in *.
  assert (Hfa : forall k, s <= k < e -> zth a k = false).
  { intros k Hk. apply not_true_false. intros Hka.
    assert (Hc : zth r k = true) by (apply Hfr; [lia | now left]).
    rewrite Hf in Hc by exact Hk. discriminate. }
  assert (Hnog : forall k, s <= k < e -> ~ in_small_gap a m k).
  { intros k Hk Hg.
    assert (Hc : zth r k = true) by (apply Hfr; [lia | now right]).
    rewrite Hf in Hc by exact Hk. discriminate. }
  assert (Hla : zth a (s - 1) = true).
  { destruct Hleft as [-> | Hleft]; [lia |].
    apply Hfr in Hleft; [| lia].
    destruct Hleft as [Ha | (s' & e' & Hrun' & Hs' & He' & Hm' & Hi1)];
      [exact Ha |].
    exfalso. pose proof Hrun' as (Hlt' & Hel' & Hf' & Hleft' & Hright').
    destruct (Z.eq_dec e' s) as [-> | Hne].
    - destruct Hright' as [-> | Hright']; [lia |].
      rewrite Hfa in Hright' by lia. discriminate.
    - apply (Hnog s); [lia |].
      exists s', e'. split; [exact Hrun' | lia]. }
  assert (Hra : zth a e = true).
  { destruct Hright as [-> | Hright]; [lia |].
    apply Hfr in Hright; [| lia].
    destruct Hright as [Ha | (s' & e' & Hrun' & Hs' & He' & Hm' & Hi1)];
      [exact Ha |].
    exfalso. pose proof Hrun' as (Hlt' & Hel' & Hf' & Hleft' & Hright').
    destruct (Z.eq_dec s' e) as [-> | Hne].
    - destruct Hleft' as [-> | Hleft']; [lia |].
      rewrite Hfa in Hleft' by lia. discriminate.
    - apply (Hnog (e - 1)); [lia |].
      exists s', e'. split; [exact Hrun' | lia]. }
  apply (Hnog i Hse).
  exists s, e. split; [| lia]. repeat split; auto; lia.
Qed.

(** X4: in the array [remove_small_False_spans] returns no False-run of
    length at most [max_False_span] with a True frame on either side is
    left. *)
Theorem remove_small_False_spans_leaves_no_small_gap (bool_array : list bool)
    (max_False_span : Z) :
  exists r, remove_small_False_spans bool_array max_False_span = ret r /\
    forall s e, False_run r s e -> 0 < s -> e < len r ->
                max_False_span < e - s.
Proof.
  destruct (remove_small_False_spans_frames bool_array max_False_span)
    as (r & Hr & Hlen & Hfr).
  exists r. split; [exact Hr |]. intros s e Hrun Hs He.
  destruct (Z.lt_ge_cases max_False_span (e - s)) as [H | H]; [exact H |].
  exfalso.
  apply (filled_has_no_small_gap bool_array r max_False_span Hlen Hfr s).
  exists s, e. split; [exact Hrun |]. destruct Hrun as (? & _). lia.
Qed.

Lemma in_small_gap_weaken (a : list bool) (m m' i : Z) :
  m <= m' -> in_small_gap a m i -> in_small_gap a m' i.
Proof.
  intros Hm (s & e & Hrun & Hs & He & Hse & Hi).
  exists s, e. split; [exact Hrun | lia].
Qed.

(** X5: a larger threshold fills at least the frames a smaller one
    fills. *)
Theorem remove_small_False_spans_threshold_mono (bool_array : list bool)
    (m m' : Z) :
  m <= m' ->
  exists r r',
    remove_small_False_spans bool_array m = ret r /\
    remove_small_False_spans bool_array m' = ret r' /\
    forall i, 0 <= i < len bool_array -> zth r i = true -> zth r' i = true.
Proof.
  intros Hm.
  destruct (remove_small_False_spans_frames bool_array m)
    as (r & Hr & _ & Hfr).
  destruct (remove_small_False_spans_frames bool_array m')
    as (r' & Hr' & _ & Hfr').
  exists r, r'. split; [exact Hr |]. split; [exact Hr' |].
  intros i Hi Ht. apply Hfr'; [exact Hi |].
  apply Hfr in Ht; [| exact Hi].
  destruct Ht as [Ht | Ht]; [now left | right].
  now apply (in_small_gap_weaken bool_array m m').
Qed.

Lemma remove_small_False_spans_threshold_mono_witness :
  exists r r',
    remove_small_False_spans [T; F; T; F; F; T] 1 = ret r /\
    remove_small_False_spans [T; F; T; F; F; T] 2 = ret r' /\
    forall i, 0 <= i < len [T; F; T; F; F; T] ->
              zth r i = true -> zth r' i = true.
Proof.
  apply (remove_small_False_spans_threshold_mono [T; F; T; F; F; T] 1 2).
  lia.
Defined.

Lemma jump_is_False_run_start (a : list bool) (s : Z) :
  In s (jumps_of a) -> zth a s = false -> False_run_start a s.
Proof.
  intros Hj Hf. pose proof (jumps_of_bounds a s Hj).
  split; [lia |]. split; [now apply jump_after_True | exact Hf].
Qed.

(** X6: for a delay [d >= 0] with [len a + d] below 2^63, a frame that
    [delay_true_spans] turns True lies fewer than [d] frames after the
    first frame of a False-run that follows a True frame. *)
Theorem delay_true_spans_reach (bool_array : list bool) (delay : Z) :
  0 <= delay -> len bool_array + delay < 2 ^ 63 ->
  exists r, delay_true_spans bool_array delay = ret r /\
    forall i, 0 <= i < len bool_array -> zth r i = true ->
      zth bool_array i = true \/
      exists s, False_run_start bool_array s /\ s <= i < s + delay.
Proof.
  intros Hd Hn.
  destruct (delay_true_spans_mono bool_array delay) as (r & Hr & _ & _).
  exists r. split; [exact Hr |]. intros i Hi Ht.
  rewrite delay_true_spans_eq in Hr.
  pose proof (gap_loop_upper _ _ bool_array r i
                (fun s Hs => proj2 (delay_spans_in_range bool_array s Hs))
                Hr Hi Ht) as Hup.
  destruct Hup as [Hup | (s & Hs & Hf & Hw)]; [now left | right].
  destruct (delay_spans_in_range bool_array s Hs) as [Hj Hsr].
  apply delay_window in Hw; [| exact Hd | exact Hn | exact Hsr].
  exists (fst s). split; [now apply jump_is_False_run_start | lia].
Qed.

Lemma delay_true_spans_reach_witness :
  exists r, delay_true_spans [T; F; F; F; T; F] 2 = ret r /\
    forall i, 0 <= i < len [T; F; F; F; T; F] -> zth r i = true ->
      zth [T; F; F; F; T; F] i = true \/
      exists s, False_run_start [T; F; F; F; T; F] s /\ s <= i < s + 2.
Proof.
  apply (delay_true_spans_reach [T; F; F; F; T; F] 2);
    [lia | vm_compute; reflexivity].
Defined.

(** X7: for every integer delay, [delay_true_spans] leaves every frame
    before the first False-run that follows a True frame as it was; in
    particular it never changes frame 0. *)
Theorem delay_true_spans_prefix_unchanged (bool_array : list bool)
    (delay : Z) :
  exists r, delay_true_spans bool_array delay = ret r /\
    forall i, 0 <= i < len bool_array ->
      (forall s, False_run_start bool_array s -> i < s) ->
      zth r i = zth bool_array i.
Proof.
  destruct (delay_true_spans_mono bool_array delay) as (r & Hr & _ & Hmono).
  exists r. split; [exact Hr |]. intros i Hi Hbefore.
  destruct (zth bool_array i) eqn:Ea; [now apply Hmono |].
  apply not_true_false. intros Ht.
  rewrite delay_true_spans_eq in Hr.
  pose proof (gap_loop_upper _ _ bool_array r i
                (fun s Hs => proj2 (delay_spans_in_range bool_array s Hs))
                Hr Hi Ht) as Hup.
  destruct Hup as [Hup | (s & Hs & Hf & Hw)]; [congruence |].
  destruct (delay_spans_in_range bool_array s Hs) as [Hj _].
  pose proof (Hbefore (fst s) (jump_is_False_run_start _ _ Hj Hf)).
  unfold window in Hw. lia.
Qed.

Lemma no_jumps_of_constant (a : list bool) :
  (forall i j, 0 <= i < len a -> 0 <= j < len a -> zth a i = zth a j) ->
  jumps_of a = [].
Proof.
  intros H. destruct (jumps_of a) as [| j l] eqn:E; [reflexivity |].
  assert (Hj : In j (jumps_of a)) by (rewrite E; now left).
  apply In_jumps_of in Hj. destruct Hj as [Hr Hne].
  exfalso. apply Hne. apply H; lia.
Qed.

(** X8: a sequence whose frames are all equal (all True or all False) is
    returned unchanged by both gap policies, for every parameter. *)
Theorem gap_policies_keep_constant (bool_array : list bool) (parameter : Z) :
  (forall i j, 0 <= i < len bool_array -> 0 <= j < len bool_array ->
     zth bool_array i = zth bool_array j) ->
  remove_small_False_spans bool_array parameter = ret bool_array /\
  delay_true_spans bool_array parameter = ret bool_array.
Proof.
  intros H. pose proof (no_jumps_of_constant bool_array H) as Hj.
  rewrite remove_small_False_spans_eq, delay_true_spans_eq, Hj.
  split; reflexivity.
Qed.

Lemma gap_policies_keep_constant_witness :
  remove_small_False_spans [F; F; F] 5 = ret [F; F; F] /\
  delay_true_spans [F; F; F] 5 = ret [F; F; F].
Proof.
  apply (gap_policies_keep_constant [F; F; F] 5).
  intros i j Hi Hj.
  assert (Hi' : i = 0 \/ i = 1 \/ i = 2)
    by (unfold len in Hi; simpl in Hi; lia).
  assert (Hj' : j = 0 \/ j = 1 \/ j = 2)
    by (unfold len in Hj; simpl in Hj; lia).
  destruct Hi' as [-> | [-> | ->]]; destruct Hj' as [-> | [-> | ->]];
    reflexivity.
Defined.

Lemma outer_sum_mono (a r : list bool) :
  a <> [] -> length r = length a ->
  (forall i, 0 <= i < len a -> zth a i = true -> zth r i = true) ->
  exists before after,
    get_lengths_of_True_spans a true = ret before /\
    get_lengths_of_True_spans r true = ret after /\
    np_sum before <= np_sum after.
Proof.
  intros Hne Hlen Hmono.
  assert (Hr : r <> []).
  { destruct r; [| discriminate]. destruct a; [contradiction |].
    discriminate Hlen. }
  exists (True_run_lengths (runs_of a)), (True_run_lengths (runs_of r)).
  rewrite !get_lengths_outer_runs by assumption.
  split; [reflexivity |]. split; [reflexivity |].
  rewrite !np_sum_True_run_lengths.
  apply count_True_mono; [now symmetry | exact Hmono].
Qed.

(** ** C9 *)

(** C9, as stated, fails in its consequence for the normalization: what a
    sequence adds to the counter is the sum of its span lengths, and
    without [outer_spans] a filled or delayed gap can merge an inner span
    into a run that touches the end of the sequence, which is not counted.
    On [T; F; T; F] with parameter 1 both policies lower that sum from 1
    to 0. *)
Lemma gap_policies_lower_inner_sum :
  get_lengths_of_True_spans [T; F; T; F] false = ret [1] /\
  (remove_small_False_spans [T; F; T; F] 1 = ret [T; T; T; F] /\
   get_lengths_of_True_spans [T; T; T; F] false = ret [] /\
   ~ np_sum [1] <= np_sum []) /\
  (delay_true_spans [T; F; T; F] 1 = ret [T; T; T; T] /\
   get_lengths_of_True_spans [T; T; T; T] false = ret [] /\
   ~ np_sum [1] <= np_sum []).
Proof.
  assert (H : ~ np_sum [1] <= np_sum []) by (vm_compute; congruence).
  repeat split; try reflexivity; exact H.
Qed.

(** C9, amended: for every sequence and every parameter value, each gap
    policy returns an array of the same length in which every frame that
    was True is still True, so the number of True frames does not
    decrease; with [outer_spans] the sum of the span lengths, which is what
    the sequence adds to the normalization counter, is that number of True
    frames before and after, and so does not decrease either. *)
Theorem gap_policies_only_grow_selection (a : list bool) (parameter : Z) :
  let grows r :=
    length r = length a /\
    (forall i, 0 <= i < len a -> zth a i = true -> zth r i = true) /\
    count_True a <= count_True r /\
    (a <> [] ->
     exists before after,
       get_lengths_of_True_spans a true = ret before /\
       get_lengths_of_True_spans r true = ret after /\
       np_sum before = count_True a /\
       np_sum after = count_True r /\
       np_sum before <= np_sum after) in
  (exists r, remove_small_False_spans a parameter = ret r /\ grows r) /\
  (exists r, delay_true_spans a parameter = ret r /\ grows r).
Proof.
  assert (Hgrow : forall r, length r = length a ->
            (forall i, 0 <= i < len a -> zth a i = true -> zth r i = true) ->
            length r = length a /\
            (forall i, 0 <= i < len a -> zth a i = true -> zth r i = true) /\
            count_True a <= count_True r /\
            (a <> [] ->
             exists before after,
               get_lengths_of_True_spans a true = ret before /\
               get_lengths_of_True_spans r true = ret after /\
               np_sum before = count_True a /\
               np_sum after = count_True r /\
               np_sum before <= np_sum after)).
  { intros r Hlen Hmono.
    assert (Hcount : count_True a <= count_True r)
      by (apply count_True_mono; [now symmetry | exact Hmono]).
    split; [exact Hlen |]. split; [exact Hmono |]. split; [exact Hcount |].
    intros Hne.
    assert (Hr : r <> []).
    { destruct r; [| discriminate]. destruct a; [contradiction |].
      discriminate Hlen. }
    exists (True_run_lengths (runs_of a)), (True_run_lengths (runs_of r)).
    rewrite !get_lengths_outer_runs by assumption.
    rewrite !np_sum_True_run_lengths.
    repeat split; try reflexivity. exact Hcount. }
  cbv zeta. split.
  - destruct (remove_small_False_spans_mono a parameter)
      as (r & Hr & Hlen & Hmono).
    exists r. split; [exact Hr | now apply Hgrow].
  - destruct (delay_true_spans_mono a parameter)
      as (r & Hr & Hlen & Hmono).
    exists r. split; [exact Hr | now apply Hgrow].
Qed.

(** X9: with [outer_spans], running either gap policy before the span
    extraction never lowers the sum of the span lengths, which is what the
    sequence adds to the normalization counter. *)
Theorem gap_policies_never_lower_outer_sum (selected : list bool)
    (max_False_span : Z) :
  selected <> [] ->
  (exists r before after,
     remove_small_False_spans selected max_False_span = ret r /\
     get_lengths_of_True_spans selected true = ret before /\
     get_lengths_of_True_spans r true = ret after /\
     np_sum before <= np_sum after) /\
  (exists r before after,
     delay_true_spans selected max_False_span = ret r /\
     get_lengths_of_True_spans selected true = ret before /\
     get_lengths_of_True_spans r true = ret after /\
     np_sum before <= np_sum after).
Proof.
  intros Hne. split.
  - destruct (remove_small_False_spans_mono selected max_False_span)
      as (r & Hr & Hlen & Hmono).
    destruct (outer_sum_mono selected r Hne Hlen Hmono)
      as (before & after & H).
    now exists r, before, after.
  - destruct (delay_true_spans_mono selected max_False_span)
      as (r & Hr & Hlen & Hmono).
    destruct (outer_sum_mono selected r Hne Hlen Hmono)
      as (before & after & H).
    now exists r, before, after.
Qed.

Lemma gap_policies_never_lower_outer_sum_witness :
  exists r before after,
    remove_small_False_spans [F; T; F; T; F] 1 = ret r /\
    get_lengths_of_True_spans [F; T; F; T; F] true = ret before /\
    get_lengths_of_True_spans r true = ret after /\
    np_sum before <= np_sum after.
Proof.
  apply (gap_policies_never_lower_outer_sum [F; T; F; T; F] 1).
  discriminate.
Defined.

(** ** Blocks of atoms *)

Lemma stride_from_nil {A : Type} (skip step : nat) :
  stride_from skip step (@nil A) = [].
Proof. reflexivity. Qed.

Lemma concat_map_nil {A B : Type} (l : list B) :
  concat (map (fun _ => @nil A) l) = [].
Proof. induction l as [| x l IH]; [reflexivity | exact IH]. Qed.

(** X10: for [n_blocks >= 1] every slice [atoms[block::n_blocks]] is
    taken without error, and the slices for [block] in [range(n_blocks)]
    together hold every entry of the atom listing exactly once. *)
Theorem blocks_partition_atoms {A : Type} (atoms : list A) (n_blocks : nat) :
  n_blocks <> 0%nat ->
  (forall block,
     slice_from_step atoms block n_blocks
     = ret (stride_from block n_blocks atoms)) /\
  Permutation
    (concat (map (fun block => stride_from block n_blocks atoms)
               (seq 0 n_blocks)))
    atoms.
Proof.
  intros Hn. split.
  - intros block. unfold slice_from_step.
    destruct (Nat.eqb_spec n_blocks 0); [contradiction | reflexivity].
  - destruct n_blocks as [| m]; [contradiction |]. clear Hn.
    induction atoms as [| x r IH].
    + rewrite (map_ext (fun block => stride_from block (S m) (@nil A))
                 (fun _ => [])) by reflexivity.
      rewrite concat_map_nil. constructor.
    + cbn [seq map concat stride_from].
      replace (S m - 1)%nat with m by lia.
      rewrite <- seq_shift, map_map. cbn [stride_from].
      cbn [app]. constructor.
      rewrite seq_S, map_app, concat_app in IH.
      cbn [map concat Nat.add] in IH. rewrite app_nil_r in IH.
      etransitivity; [apply Permutation_app_comm | exact IH].
Qed.

Lemma blocks_partition_atoms_witness :
  Permutation
    (concat (map (fun block => stride_from block 2 [10; 11; 12; 13; 14])
               (seq 0 2)))
    [10; 11; 12; 13; 14].
Proof.
  apply (blocks_partition_atoms [10; 11; 12; 13; 14] 2). discriminate.
Defined.

(** ** The buffer of a block *)

Lemma contribution_nonneg (i L : Z) : 0 <= contribution i L.
Proof. unfold contribution. destruct (Z.ltb_spec i L); lia. Qed.

Lemma contribution_mono (i j L : Z) :
  i <= j -> contribution j L <= contribution i L.
Proof.
  intros H. unfold contribution.
  destruct (Z.ltb_spec i L); destruct (Z.ltb_spec j L); lia.
Qed.

Lemma total_contribution_nonneg (i : Z) (l : list Z) :
  0 <= total_contribution i l.
Proof.
  unfold total_contribution, np_sum.
  induction l as [| L l IH]; cbn [map fold_right]; [lia |].
  pose proof (contribution_nonneg i L). lia.
Qed.

Lemma total_contribution_mono (i j : Z) (l : list Z) :
  i <= j -> total_contribution j l <= total_contribution i l.
Proof.
  intros H. unfold total_contribution, np_sum.
  induction l as [| L l IH]; cbn [map fold_right]; [lia |].
  pose proof (contribution_mono i j L H). lia.
Qed.

Lemma total_contribution_0 (l : list Z) :
  Forall (fun L => 0 < L) l -> total_contribution 0 l = np_sum l.
Proof.
  unfold total_contribution, np_sum.
  induction 1 as [| L l HL _ IH]; cbn [map fold_right]; [reflexivity |].
  rewrite IH. unfold contribution. destruct (Z.ltb_spec 0 L); lia.
Qed.

Lemma total_contribution_app (i : Z) (l l' : list Z) :
  total_contribution i (l ++ l')
  = total_contribution i l + total_contribution i l'.
Proof.
  unfold total_contribution, np_sum.
  induction l as [| L l IH]; cbn [app map fold_right]; [reflexivity |].
  rewrite IH. lia.
Qed.

Lemma np_sum_app (l l' : list Z) : np_sum (l ++ l') = np_sum l + np_sum l'.
Proof.
  unfold np_sum.
  induction l as [| L l IH]; cbn [app fold_right]; [reflexivity |].
  rewrite IH. lia.
Qed.

(** The loop adds to the buffer and to the counter the spans of all the
    atoms it visits. *)
Lemma atoms_loop_spans (table : list (list Z)) (max_False_span : Z)
    (outer_spans delay : bool) (atoms acf : list Z) (norm : Z) :
  table <> [] -> length acf = length table ->
  (forall i, 0 <= i < len table -> is_int64 (zth_int acf i)) ->
  exists acf' norm' per_atom,
    atoms_loop (time_grid (length table)) table max_False_span outer_spans
      delay atoms acf norm = ret (acf', norm') /\
    Forall2 (fun atom spans =>
               atom_span_lengths table max_False_span outer_spans delay atom
               = ret spans) atoms per_atom /\
    Forall (fun L => 0 < L) (concat per_atom) /\
    norm' = norm + np_sum (concat per_atom) /\
    forall i, 0 <= i < len table ->
      zth_int acf' i
      = wrap64 (zth_int acf i + total_contribution i (concat per_atom)).
Proof.
  intros Ht. revert acf norm.
  induction atoms as [| atom rest IH]; intros acf norm Hlen Hint.
  - exists acf, norm, []. split; [reflexivity |]. split; [constructor |].
    split; [constructor |]. split; [cbn; lia |].
    intros i Hi. change (total_contribution i (concat [])) with 0.
    rewrite Z.add_0_r. symmetry. apply wrap64_in_range. now apply Hint.
  - cbn [atoms_loop].
    destruct (gap_policy_total (selection_of table atom) max_False_span delay)
      as (sel & Hsel & Hsl).
    assert (Hatom : atom_span_lengths table max_False_span outer_spans
                      delay atom
                    = get_lengths_of_True_spans sel outer_spans).
    { unfold atom_span_lengths. now rewrite Hsel. }
    rewrite Hsel. cbn [bind ret].
    rewrite selection_of_length in Hsl.
    assert (Hne : sel <> []).
    { destruct sel; [| discriminate]. destruct table; [contradiction |].
      discriminate Hsl. }
    pose proof (get_lengths_of_True_spans_eq sel outer_spans Hne) as Hg.
    set (spans := match span_indices sel outer_spans with
                  | [] => []
                  | i0 :: _ => _
                  end) in Hg.
    rewrite Hg in *. cbn [bind ret].
    pose proof (get_lengths_of_True_spans_pos _ _ _ Hg) as Hpos.
    pose proof (get_lengths_of_True_spans_bounded _ _ _ Hg) as Hbd.
    unfold len in Hbd. rewrite Hsl in Hbd.
    destruct (add_acf_from_span_lengths_entries (length table) spans acf
                Hlen Hint Hbd) as (acf1 & Hacf1 & Hl1 & He1).
    rewrite Hacf1. cbn [bind ret].
    destruct (IH acf1 (norm + np_sum spans) Hl1)
      as (acf' & norm' & per_rest & Hloop & Hper & Hall & Hnorm & Hent).
    { intros i Hi. rewrite He1 by exact Hi. apply wrap64_is_int64. }
    exists acf', norm', (spans :: per_rest).
    split; [exact Hloop |]. split; [now constructor |].
    cbn [concat].
    split; [now apply Forall_app |].
    split; [rewrite np_sum_app; lia |].
    intros i Hi. rewrite Hent, He1 by exact Hi.
    rewrite wrap64_add_l, total_contribution_app. f_equal. lia.
Qed.

Lemma zth_int_zeros (t : list Z) (i : Z) :
  zth_int (map (fun _ => 0) t) i = 0.
Proof.
  unfold zth_int.
  destruct (nth_in_or_default (Z.to_nat i) (map (fun _ : Z => 0) t) 0)
    as [H | H]; [| exact H].
  apply in_map_iff in H. now destruct H as [_ [<- _]].
Qed.

(** X11: on a table with at least one frame the loop over the atoms of a
    block, started on a zeroed buffer and a zero counter, returns; every
    atom yields its span lengths without error, the counter is the sum of
    all of them, and entry [i] of the buffer is, in int64 arithmetic, the
    sum over all of them of [L - i] where [i < L]. *)
Theorem atoms_loop_accumulates (table : list (list Z)) (max_False_span : Z)
    (outer_spans delay : bool) (atoms : list Z) :
  table <> [] ->
  exists acf norm per_atom,
    atoms_loop (time_grid (length table)) table max_False_span outer_spans
      delay atoms (map (fun _ => 0) (time_grid (length table))) 0
    = ret (acf, norm) /\
    Forall2 (fun atom spans =>
               atom_span_lengths table max_False_span outer_spans delay atom
               = ret spans) atoms per_atom /\
    norm = np_sum (concat per_atom) /\
    forall i, 0 <= i < len table ->
      zth_int acf i = wrap64 (total_contribution i (concat per_atom)).
Proof.
  intros Ht.
  destruct (atoms_loop_spans table max_False_span outer_spans delay atoms
              (map (fun _ => 0) (time_grid (length table))) 0 Ht)
    as (acf & norm & per_atom & Hloop & Hper & _ & Hn & Hent).
  - now rewrite length_map, time_grid_length.
  - intros i _. apply zeros_int64.
  - exists acf, norm, per_atom. split; [exact Hloop |].
    split; [exact Hper |]. split; [lia |].
    intros i Hi. rewrite Hent by exact Hi. now rewrite zth_int_zeros.
Qed.

Lemma atoms_loop_accumulates_witness :
  exists acf norm per_atom,
    atoms_loop (time_grid 3) [[1; 2]; [1]; [1; 2]] 0 true false [1; 2]
      (map (fun _ => 0) (time_grid 3)) 0 = ret (acf, norm) /\
    Forall2 (fun atom spans =>
               atom_span_lengths [[1; 2]; [1]; [1; 2]] 0 true false atom
               = ret spans) [1; 2] per_atom /\
    norm = np_sum (concat per_atom).
Proof.
  destruct (atoms_loop_accumulates [[1; 2]; [1]; [1; 2]] 0 true false [1; 2])
    as (acf & norm & per_atom & H1 & H2 & H3 & _).
  - discriminate.
  - exists acf, norm, per_atom. repeat split; assumption.
Defined.

(** X12: when the loop over the atoms of a block, started on a zeroed buffer
    and a zero counter, ends with a counter below 2^63, entry 0 of the
    buffer equals the counter and the entries are non-negative and do not
    increase with the lag. *)
Theorem block_buffer_profile (table : list (list Z)) (max_False_span : Z)
    (outer_spans delay : bool) (atoms acf : list Z) (norm : Z) :
  table <> [] ->
  atoms_loop (time_grid (length table)) table max_False_span outer_spans
    delay atoms (map (fun _ => 0) (time_grid (length table))) 0
  = ret (acf, norm) ->
  norm < 2 ^ 63 ->
  zth_int acf 0 = norm /\
  forall i j, 0 <= i <= j -> j < len table ->
    0 <= zth_int acf j <= zth_int acf i.
Proof.
  intros Ht Hloop Hnorm.
  destruct (atoms_loop_spans table max_False_span outer_spans delay atoms
              (map (fun _ => 0) (time_grid (length table))) 0 Ht)
    as (acf' & norm' & per_atom & Hloop' & _ & Hall & Hn & Hent).
  - now rewrite length_map, time_grid_length.
  - intros i _. apply zeros_int64.
  - rewrite Hloop in Hloop'. injection Hloop' as <- <-.
    set (all_spans := concat per_atom) in *.
    assert (Hexact : forall i, 0 <= i < len table ->
              zth_int acf i = total_contribution i all_spans).
    { intros i Hi. rewrite Hent, zth_int_zeros by exact Hi. cbn [Z.add].
      apply wrap64_in_range.
      pose proof (total_contribution_nonneg i all_spans).
      pose proof (total_contribution_mono 0 i all_spans (proj1 Hi)).
      rewrite total_contribution_0 in H0 by exact Hall. lia. }
    assert (Hpos : 0 < len table).
    { destruct table; [contradiction |]. rewrite len_cons.
      pose proof (len_nonneg table). lia. }
    split.
    + rewrite Hexact by lia. rewrite total_contribution_0 by exact Hall. lia.
    + intros i j Hij Hj. rewrite !Hexact by lia. split.
      * apply total_contribution_nonneg.
      * apply total_contribution_mono. lia.
Qed.

Lemma block_buffer_profile_witness :
  zth_int [6; 4; 2] 0 = 6 /\
  forall i j, 0 <= i <= j -> j < len [[1; 2]; [1; 2]; [1; 2]] ->
    0 <= zth_int [6; 4; 2] j <= zth_int [6; 4; 2] i.
Proof.
  apply (block_buffer_profile [[1; 2]; [1; 2]; [1; 2]] 0 true false [1; 2]
           [6; 4; 2] 6).
  - discriminate.
  - reflexivity.
  - reflexivity.
Defined.

(** ** Atoms selected in every frame *)

Lemma jumps_of_repeat_true (n : nat) : jumps_of (repeat true n) = [].
Proof.
  induction n as [| n IH]; [reflexivity |].
  destruct n as [| n]; [reflexivity |].
  change (repeat true (S (S n))) with (true :: true :: repeat true n).
  rewrite jumps_of_cons. change (true :: repeat true n)
    with (repeat true (S n)). now rewrite IH.
Qed.

Lemma selection_of_everywhere (table : list (list Z)) (atom : Z) :
  (forall row, In row table -> In atom row) ->
  selection_of table atom = repeat true (length table).
Proof.
  intros H. unfold selection_of.
  induction table as [| row table IH]; [reflexivity |].
  cbn [map length repeat]. f_equal.
  - apply existsb_exists. exists atom. split.
    + apply H. now left.
    + apply Z.eqb_refl.
  - apply IH. intros r Hr. apply H. now right.
Qed.

(** The spans of an atom that is selected in every frame: the whole
    sequence with [outer_spans], nothing without. *)
Lemma atom_span_lengths_everywhere (table : list (list Z))
    (max_False_span : Z) (outer_spans delay : bool) (atom : Z) :
  table <> [] ->
  (forall row, In row table -> In atom row) ->
  atom_span_lengths table max_False_span outer_spans delay atom
  = ret (if outer_spans then [len table] else []).
Proof.
  intros Ht Hsel. unfold atom_span_lengths.
  rewrite (selection_of_everywhere table atom Hsel).
  assert (Hpol : (if 0 <? max_False_span then
                    if delay
                    then delay_true_spans (repeat true (length table))
                           max_False_span
                    else remove_small_False_spans
                           (repeat true (length table)) max_False_span
                  else ret (repeat true (length table)))
                 = ret (repeat true (length table))).
  { destruct (0 <? max_False_span); [| reflexivity].
    destruct delay.
    - now rewrite delay_true_spans_eq, jumps_of_repeat_true.
    - now rewrite remove_small_False_spans_eq, jumps_of_repeat_true. }
  rewrite Hpol. cbn [bind ret].
  assert (Hne : repeat true (length table) <> []).
  { destruct table; [contradiction | discriminate]. }
  rewrite get_lengths_of_True_spans_eq by exact Hne.
  unfold span_indices. rewrite jumps_of_repeat_true.
  destruct outer_spans; [| reflexivity].
  cbn [app]. unfold len. rewrite repeat_length.
  destruct table as [| row table]; [contradiction |].
  cbn [length repeat]. rewrite zth_0_cons.
  unfold slice_from_step2, np_diff. cbn [negb int_of_bool skipn step2].
  now rewrite Z.sub_0_r.
Qed.

Lemma everywhere_spans_sum (table : list (list Z)) (max_False_span : Z)
    (outer_spans delay : bool) (atoms : list Z) (per_atom : list (list Z)) :
  table <> [] ->
  (forall atom row, In atom atoms -> In row table -> In atom row) ->
  Forall2 (fun atom spans =>
             atom_span_lengths table max_False_span outer_spans delay atom
             = ret spans) atoms per_atom ->
  concat per_atom
  = if outer_spans then repeat (len table) (length atoms) else [].
Proof.
  intros Ht Hsel Hper.
  induction Hper as [| atom spans atoms per_atom Hatom _ IH].
  - now destruct outer_spans.
  - rewrite atom_span_lengths_everywhere in Hatom;
      [| exact Ht | intros row Hrow; apply Hsel; [now left | exact Hrow]].
    injection Hatom as <-. cbn [concat].
    rewrite IH by (intros a row Ha; apply Hsel; now right).
    now destruct outer_spans.
Qed.

Lemma total_contribution_repeat (i L : Z) (n : nat) :
  total_contribution i (repeat L n) = Z.of_nat n * contribution i L.
Proof.
  unfold total_contribution, np_sum.
  induction n as [| n IH]; [reflexivity |].
  cbn [repeat map fold_right]. rewrite IH. lia.
Qed.

(** X13: when every atom of a block is selected in every frame and
    [outer_spans] is set, the block's counter is the number of atoms times
    the number of frames and, as long as that product is below 2^63,
    entry [i] of its buffer is the number of atoms times the number of
    frames from [i] on, whatever gap policy is configured. *)
Theorem atoms_selected_everywhere (table : list (list Z)) (max_False_span : Z)
    (delay : bool) (atoms : list Z) :
  table <> [] ->
  (forall atom row, In atom atoms -> In row table -> In atom row) ->
  len atoms * len table < 2 ^ 63 ->
  exists acf,
    atoms_loop (time_grid (length table)) table max_False_span true
      delay atoms (map (fun _ => 0) (time_grid (length table))) 0
    = ret (acf, len atoms * len table) /\
    forall i, 0 <= i < len table ->
      zth_int acf i = len atoms * (len table - i).
Proof.
  intros Ht Hsel Hfit.
  destruct (atoms_loop_spans table max_False_span true delay atoms
              (map (fun _ => 0) (time_grid (length table))) 0 Ht)
    as (acf & norm & per_atom & Hloop & Hper & _ & Hn & Hent).
  - now rewrite length_map, time_grid_length.
  - intros i _. apply zeros_int64.
  - rewrite (everywhere_spans_sum table max_False_span true delay atoms
               per_atom Ht Hsel Hper) in Hn, Hent.
    assert (Hnorm : norm = len atoms * len table).
    { rewrite Hn. unfold np_sum, len. clear.
      induction (length atoms) as [| n IH]; [reflexivity |].
      cbn [repeat fold_right]. cbn [Z.add] in IH. rewrite IH. lia. }
    exists acf. split; [now rewrite Hloop, Hnorm |].
    intros i Hi. rewrite Hent, zth_int_zeros by exact Hi.
    rewrite total_contribution_repeat. fold (len atoms).
    unfold contribution. destruct (Z.ltb_spec i (len table)); [| lia].
    cbn [Z.add]. apply wrap64_in_range.
    pose proof (len_nonneg atoms). nia.
Qed.

Lemma atoms_selected_everywhere_witness :
  exists acf,
    atoms_loop (time_grid 3) [[1; 2]; [2; 1]; [1; 2]] 1 true true [1; 2]
      (map (fun _ => 0) (time_grid 3)) 0 = ret (acf, 6) /\
    forall i, 0 <= i < 3 -> zth_int acf i = 2 * (3 - i).
Proof.
  apply (atoms_selected_everywhere [[1; 2]; [2; 1]; [1; 2]] 1 true [1; 2]).
  - discriminate.
  - intros atom row Ha Hr.
    destruct Ha as [<- | [<- | []]];
      destruct Hr as [<- | [<- | [<- | []]]]; simpl; tauto.
  - reflexivity.
Defined.

(** X14: when every atom of a block is selected in every frame and
    [outer_spans] is not set, no span is counted: the block's counter
    stays zero and its normalized ACF is NaN in every entry. *)
Theorem atoms_selected_everywhere_inner_nan (table : list (list Z))
    (max_False_span : Z) (delay : bool) (atoms : list Z)
    (n_blocks block : nat) :
  table <> [] -> n_blocks <> 0%nat ->
  (forall atom row, In atom atoms -> In row table -> In atom row) ->
  block_acf (time_grid (length table)) table max_False_span false delay
    atoms n_blocks block
  = ret (map (fun _ => nan) (time_grid (length table))).
Proof.
  intros Ht Hn Hsel. unfold block_acf, slice_from_step.
  destruct (Nat.eqb_spec n_blocks 0) as [E | _]; [contradiction |].
  cbn [bind ret].
  assert (Hsub : forall atom row,
            In atom (stride_from block n_blocks atoms) -> In row table ->
            In atom row).
  { intros atom row Ha. apply Hsel. clear - Ha.
    revert block Ha. induction atoms as [| x r IH]; intros block Ha.
    - contradiction.
    - cbn [stride_from] in Ha. destruct block as [| k].
      + destruct Ha as [<- | Ha]; [now left | right; now apply IH in Ha].
      + right. now apply IH in Ha. }
  destruct (atoms_loop_spans table max_False_span false delay
              (stride_from block n_blocks atoms)
              (map (fun _ => 0) (time_grid (length table))) 0 Ht)
    as (acf & norm & per_atom & Hloop & Hper & _ & Hnorm & Hent).
  - now rewrite length_map, time_grid_length.
  - intros i _. apply zeros_int64.
  - rewrite (everywhere_spans_sum table max_False_span false delay _
               per_atom Ht Hsub Hper) in Hnorm.
    cbn in Hnorm. subst norm.
    destruct (atoms_loop_total table max_False_span false delay
                (stride_from block n_blocks atoms)
                (map (fun _ => 0) (time_grid (length table))) 0 Ht)
      as (acf' & norm' & Hloop' & _ & _ & Hsame).
    + now rewrite length_map, time_grid_length.
    + intros i _. apply zeros_int64.
    + rewrite Hloop in Hloop'. injection Hloop' as <- <-.
      rewrite Hloop. cbn [bind ret fst snd].
      rewrite (Hsame eq_refl). now rewrite normalize_zeros.
Qed.

Lemma atoms_selected_everywhere_inner_nan_witness :
  block_acf (time_grid 2) [[7]; [7]] 0 false false [7] 1 0
  = ret [nan; nan].
Proof.
  apply (atoms_selected_everywhere_inner_nan [[7]; [7]] 0 false [7] 1 0).
  - discriminate.
  - discriminate.
  - intros atom row Ha Hr.
    destruct Ha as [<- | []]; destruct Hr as [<- | [<- | []]]; simpl; tauto.
Defined.

(** ** The shape of the result *)

Lemma fold_rows_length (f : float -> float -> float) (w : nat)
    (rows : list (list float)) (init : list float) :
  Forall (fun row => length row = w) rows -> length init = w ->
  length (fold_left (zip_float f) rows init) = w.
Proof.
  intros Hrows. revert init.
  induction Hrows as [| row rows Hrow _ IH]; intros init Hinit.
  - exact Hinit.
  - cbn [fold_left]. apply IH. rewrite zip_float_length; congruence.
Qed.

Lemma sum_axis0_length (w : nat) (rows : list (list float)) :
  Forall (fun row => length row = w) rows ->
  length (sum_axis0 w rows) = w.
Proof.
  intros H. unfold sum_axis0. apply fold_rows_length; [exact H |].
  apply repeat_length.
Qed.

(** X15: on a table with at least one frame the computation returns three
    arrays with one entry per frame, for every number of blocks. *)
Theorem calc_acf_result_shape (table : list (list Z)) (atoms : list Z)
    (dt : float) (max_False_span : Z) (n_blocks : nat)
    (outer_spans delay : bool) :
  table <> [] ->
  exists t acf_mean acf_std,
    calc_acf_from_select_data table atoms dt max_False_span n_blocks
      outer_spans delay = ret (t, acf_mean, acf_std) /\
    length t = length table /\
    length acf_mean = length table /\
    length acf_std = length table.
Proof.
  intros Ht.
  destruct (calc_acf_from_select_data_total table atoms dt max_False_span
              n_blocks outer_spans delay Ht)
    as (rows & _ & _ & Hall & _ & Hcalc).
  eexists. eexists. eexists. split; [exact Hcalc |].
  split; [| split].
  - now rewrite length_map, time_grid_length.
  - unfold np_mean_axis0. rewrite length_map. now apply sum_axis0_length.
  - unfold np_std_axis0. rewrite length_map. apply sum_axis0_length.
    rewrite Forall_forall in *. intros row Hin.
    apply in_map_iff in Hin. destruct Hin as (row1 & <- & Hin).
    apply in_map_iff in Hin. destruct Hin as (row0 & <- & Hin).
    rewrite length_map, zip_float_length; rewrite (Hall row0 Hin).
    + reflexivity.
    + unfold np_mean_axis0. rewrite length_map. symmetry.
      apply sum_axis0_length. now apply Forall_forall.
Qed.

Lemma calc_acf_result_shape_witness :
  exists t acf_mean acf_std,
    calc_acf_from_select_data [[1; 2]; [1]; [2]] [1; 2] 1%float 1 2
      true true = ret (t, acf_mean, acf_std) /\
    length t = 3%nat /\ length acf_mean = 3%nat /\ length acf_std = 3%nat.
Proof.
  apply (calc_acf_result_shape [[1; 2]; [1]; [2]] [1; 2] 1%float 1 2
           true true).
  discriminate.
Defined.

(** ** Shapes that do not fit *)

(** X16: when the buffer has fewer entries than a span of at least two
    frames that fits the time grid, the addition of that span raises
    [ValueError]: nothing is added and no later span is processed. *)
Theorem add_acf_short_buffer_raises (t acf : list Z) (span_len : Z)
    (rest : list Z) :
  2 <= span_len -> len acf < span_len -> span_len <= len t ->
  add_acf_from_span_lengths t acf (span_len :: rest) = raise ValueError.
Proof.
  intros H2 Hshort Hfit. cbn [add_acf_from_span_lengths].
  pose proof (len_nonneg acf) as Hacf.
  assert (Hrhs : len (map (fun ti => sub64 span_len ti)
                        (slice_to t span_len)) = span_len).
  { unfold slice_to. rewrite slice_bound_in_range by lia.
    unfold len in *. rewrite length_map, firstn_length_le by lia. lia. }
  assert (Htarget : len (slice_to acf span_len) = len acf).
  { unfold slice_to, slice_bound.
    destruct (Z.ltb_spec span_len 0); [lia |].
    rewrite Z.min_r by lia. unfold len. rewrite Nat2Z.id.
    now rewrite firstn_all. }
  unfold iadd_slice_to. rewrite Hrhs, Htarget.
  destruct (Z.eqb_spec span_len (len acf)) as [E | _]; [lia |].
  destruct (map (fun ti => sub64 span_len ti) (slice_to t span_len))
    as [| y [| z l]]; try reflexivity.
  unfold len in Hrhs. simpl in Hrhs. lia.
Qed.

Lemma add_acf_short_buffer_raises_witness :
  add_acf_from_span_lengths [0; 1; 2] [0; 0] [3; 1] = raise ValueError.
Proof.
  apply (add_acf_short_buffer_raises [0; 1; 2] [0; 0] 3 [1]);
    vm_compute; congruence.
Defined.
